(** * Code-review workflow: input normalisation, URL extraction and diff parsing

    A shallow embedding of [src/mastra/workflows/code-review-workflow.ts]
    (steps [parseRepoUrl] and [routeStep]) and of the JavaScript primitives
    these two steps rely on: strings as sequences of UTF-16 code units,
    [startsWith] / [endsWith] / [slice] / [split], truthiness, the three
    regular expressions of the file under the backtracking semantics of
    [String.prototype.match], exceptions with [try] / [catch], and [fetch]
    as an explicit network environment. *)

From Stdlib Require Import List NArith ZArith Bool Lia String Ascii DecimalString.
Import ListNotations.

Set Implicit Arguments.

(** ** JavaScript strings *)

Module JS.

(** A JavaScript string is a finite sequence of UTF-16 code units. *)
Definition char := N.
Definition jsstring := list char.

(** String literals of the source, written as Rocq strings. *)
Definition lit (s : string) : jsstring :=
  map N_of_ascii (list_ascii_of_string s).
Arguments lit s%_string.

Fixpoint jseqb (s t : jsstring) : bool :=
  match s, t with
  | [], [] => true
  | c :: s', d :: t' => N.eqb c d && jseqb s' t'
  | _, _ => false
  end.

(** [s.startsWith(p)] *)
Fixpoint startsWith (p s : jsstring) : bool :=
  match p, s with
  | [], _ => true
  | _ :: _, [] => false
  | c :: p', d :: s' => N.eqb c d && startsWith p' s'
  end.

(** The remainder of [s] after the literal prefix [p], when [s] starts with it. *)
Fixpoint strip_prefix (p s : jsstring) : option jsstring :=
  match p, s with
  | [], _ => Some s
  | _ :: _, [] => None
  | c :: p', d :: s' => if N.eqb c d then strip_prefix p' s' else None
  end.

(** [s.endsWith(p)] *)
Definition endsWith (p s : jsstring) : bool :=
  (List.length p <=? List.length s)%nat && jseqb (skipn (List.length s - List.length p) s) p.

(** [s.slice(0, -k)] for a positive [k]: all but the last [k] code units
    (the empty string when [s] is shorter than [k]). *)
Definition slice_0_neg (k : nat) (s : jsstring) : jsstring :=
  firstn (List.length s - k) s.

Definition LF : char := 10%N.

(** [s.split('\n')]: never empty, the empty string splits into one empty line. *)
Fixpoint split_nl (s : jsstring) : list jsstring :=
  match s with
  | [] => [[]]
  | c :: s' =>
      if N.eqb c LF then [] :: split_nl s'
      else match split_nl s' with
           | l :: ls => (c :: l) :: ls
           | [] => [[c]]
           end
  end.

(** Truthiness of a string value: the empty string is falsy. *)
Definition truthy (s : jsstring) : bool :=
  match s with [] => false | _ :: _ => true end.

(** Truthiness of a value that may be [null] or [undefined]. *)
Definition truthy_opt (o : option jsstring) : bool :=
  match o with Some s => truthy s | None => false end.

(** [o || d] on an optional string: the default replaces [undefined] and [''] alike. *)
Definition or_default (o : option jsstring) (d : jsstring) : jsstring :=
  match o with
  | Some s => if truthy s then s else d
  | None => d
  end.

(** Template interpolation of a non-negative integer: its decimal digits. *)
Definition show_N (n : N) : jsstring :=
  lit (NilEmpty.string_of_uint (N.to_uint n)).

End JS.
Import JS.

(** ** Regular expressions

    The three regular expressions of the source are sequences of literal
    text and capture groups of the form [(C+)] with [C] a character set.
    [exec] is the semantics of [str.match(re)] for a pattern without flags:
    the leftmost start position wins, each [+] is greedy and gives code
    units back one at a time when the rest of the pattern fails. *)

Module Regex.

Inductive charset :=
| NoneOf (cs : list char)   (* [^...] *)
| Dot.                      (* .  : anything but a line terminator *)

Definition line_terminators : list char := [10; 13; 8232; 8233]%N.

Definition mem (c : char) (cs : list char) : bool := existsb (N.eqb c) cs.

Definition accepts (C : charset) (c : char) : bool :=
  match C with
  | NoneOf cs => negb (mem c cs)
  | Dot => negb (mem c line_terminators)
  end.

Inductive item :=
| Lit (s : jsstring)      (* literal text *)
| Group (C : charset).    (* (C+) *)

Definition regex := list item.

(** [plus C k s]: match [C+] at the head of [s], longest first, then the
    continuation [k] on what is left; give back one code unit at a time
    while [k] fails.  Returns the text taken by [C+] and the result of [k]. *)
Fixpoint plus {A} (C : charset) (k : jsstring -> option A) (s : jsstring)
  : option (jsstring * A) :=
  match s with
  | [] => None
  | c :: s' =>
      if accepts C c then
        match plus C k s' with
        | Some (g, r) => Some (c :: g, r)
        | None =>
            match k s' with
            | Some r => Some ([c], r)
            | None => None
            end
        end
      else None
  end.

(** Match the pattern at the head of [s]: the captures in order and the
    unconsumed rest of the input. *)
Fixpoint match_here (re : regex) (s : jsstring) : option (list jsstring * jsstring) :=
  match re with
  | [] => Some ([], s)
  | Lit l :: re' =>
      match strip_prefix l s with
      | Some s' => match_here re' s'
      | None => None
      end
  | Group C :: re' =>
      match plus C (match_here re') s with
      | Some (g, (caps, rest)) => Some (g :: caps, rest)
      | None => None
      end
  end.

(** [s.match(re)]: [None] for [null], otherwise the match array
    [m[0]; m[1]; ...] (whole match, then the captures). *)
Fixpoint exec (re : regex) (s : jsstring) : option (list jsstring) :=
  match match_here re s with
  | Some (caps, rest) => Some (firstn (List.length s - List.length rest) s :: caps)
  | None =>
      match s with
      | [] => None
      | _ :: s' => exec re s'
      end
  end.

(** [m[i]] *)
Definition group (i : nat) (m : list jsstring) : jsstring := nth i m [].

End Regex.

(** ** Exceptions *)

(** What a [throw] carries.  Every error raised in the workflow, by the
    engine ([TypeError]), by [response.json()] ([SyntaxError]) or by the
    code itself ([Error]), is an instance of [Error]; [NonError] stands for
    any other thrown value, which the [catch] clause of [routeStep] tells
    apart with [instanceof]. *)
Inductive error_class := JsError | JsTypeError | JsSyntaxError.

Inductive thrown :=
| Exn (c : error_class) (message : jsstring)
| NonError.

Inductive result (A : Type) :=
| Ok (a : A)
| Throw (e : thrown).
Arguments Ok {A} a.
Arguments Throw {A} e.

Definition bind {A B} (m : result A) (k : A -> result B) : result B :=
  match m with
  | Ok a => k a
  | Throw e => Throw e
  end.

Definition try_catch {A} (m : result A) (handler : thrown -> result A) : result A :=
  match m with
  | Ok a => Ok a
  | Throw e => handler e
  end.

Declare Scope js_scope.
Delimit Scope js_scope with js.
Notation "x <- m ;; k" := (bind m (fun x => k))
  (at level 61, m at next level, right associativity) : js_scope.
Open Scope js_scope.

(** The message of the [TypeError] that Node's engine raises for [x.p]
    when [x] is [undefined]. *)
Definition read_of_undefined (p : string) : thrown :=
  Exn JsTypeError (lit "Cannot read properties of undefined (reading '" ++ lit p ++ lit "')").
Arguments read_of_undefined p%_string.

(** ** Data model *)

(** The workflow input: one object whose keys may or may not be present.
    [Some] is a present key (holding a string), [None] an absent one. *)
Record WorkflowInput := {
  in_repoUrl : option jsstring;
  in_diffContent : option jsstring;
  in_commitMessage : option jsstring;
  in_author : option jsstring;
  in_commitSha : option jsstring
}.

(** [repoInfoSchema] *)
Record RepoInfo := {
  owner : jsstring;
  repo : jsstring;
  url : jsstring
}.

(** The object tagged [type: 'diff'] that [parseRepoUrl] hands to [routeStep]. *)
Record DiffInput := {
  diffContent : option jsstring;
  commitMessage : option jsstring;
  author : option jsstring;
  commitSha : option jsstring
}.

Inductive StepData :=
| Repo (r : RepoInfo)
| Diff (d : DiffInput).

Record Stats := {
  st_additions : Z;
  st_deletions : Z;
  total : Z
}.

Record FileChange := {
  filename : jsstring;
  additions : Z;
  deletions : Z;
  changes : Z;
  status : jsstring;
  patch : option jsstring
}.

(** [commitDetailSchema] *)
Record CommitDetail := {
  cd_sha : jsstring;
  cd_message : jsstring;
  cd_author : jsstring;
  cd_date : jsstring;
  cd_url : jsstring;
  stats : Stats;
  files : list FileChange
}.

(** ** The remote API

    Payloads have the shapes of the interfaces [GitHubCommit] and
    [GitHubCommitDetail] of the repository's GitHub tool; numbers are
    integers.  [gh_author] is [None] when the API sends [null].  A file
    entry may carry further properties ([sha], [blob_url], ...), kept
    here as [gf_others]. *)

Record GitHubUser := { login : jsstring }.

Record GitHubCommitAuthor := {
  ca_name : jsstring;
  ca_email : jsstring;
  ca_date : jsstring
}.

Record GitHubCommitInfo := {
  ci_message : jsstring;
  ci_author : GitHubCommitAuthor
}.

Record GitHubCommit := {
  gc_sha : jsstring;
  gc_commit : GitHubCommitInfo;
  gc_author : option GitHubUser
}.

Record GitHubFile := {
  gf_filename : jsstring;
  gf_additions : Z;
  gf_deletions : Z;
  gf_changes : Z;
  gf_status : jsstring;
  gf_patch : option jsstring;
  gf_others : list (jsstring * jsstring)
}.

Record GitHubCommitDetail := {
  gh_sha : jsstring;
  gh_commit : GitHubCommitInfo;
  gh_author : option GitHubUser;
  gh_files : list GitHubFile;
  gh_stats : Stats
}.

(** A parsed response body: the array of the commit-list endpoint or the
    object of the commit-detail endpoint. *)
Inductive Json :=
| CommitArray (l : list GitHubCommit)
| CommitObject (d : GitHubCommitDetail).

Record Request := {
  req_url : jsstring;
  req_headers : list (jsstring * jsstring)
}.

(** A [fetch] response.  [resp_json] is what [await response.json()]
    gives: the parsed body, or the exception of a body that does not parse. *)
Record Response := {
  resp_status : N;
  resp_statusText : jsstring;
  resp_json : result Json
}.

(** [response.ok]: the status is in the range 200-299. *)
Definition ok (r : Response) : bool :=
  (200 <=? resp_status r)%N && (resp_status r <=? 299)%N.

(** The network as [fetch] sees it: a request is answered by a response,
    or [fetch] rejects (DNS, connection). *)
Definition Network := Request -> result Response.

Import Regex.

(** ** Step [parseRepoUrl] *)

(** The two patterns tried in order:
    [/github\.com\/([^\/]+)\/([^\/\?#]+)/] and
    [/github\.com\/([^\/]+)\/([^\/\?#]+)\.git/]. *)
Definition repo_pattern : regex :=
  [Lit (lit "github.com/"); Group (NoneOf (lit "/")); Lit (lit "/");
   Group (NoneOf (lit "/?#"))].

Definition repo_git_pattern : regex :=
  [Lit (lit "github.com/"); Group (NoneOf (lit "/")); Lit (lit "/");
   Group (NoneOf (lit "/?#")); Lit (lit ".git")].

Definition patterns : list regex := [repo_pattern; repo_git_pattern].

(** [repo.endsWith('.git') ? repo.slice(0, -4) : repo] *)
Definition strip_git (repo : jsstring) : jsstring :=
  if endsWith (lit ".git") repo then slice_0_neg 4 repo else repo.

(** The loop over [patterns]: [owner] and [repo] start empty and are set
    from the first pattern that matches. *)
Fixpoint extract_owner_repo (ps : list regex) (repoUrl : jsstring) : jsstring * jsstring :=
  match ps with
  | [] => ([], [])
  | pattern :: ps' =>
      match exec pattern repoUrl with
      | Some m => (group 1 m, strip_git (group 2 m))
      | None => extract_owner_repo ps' repoUrl
      end
  end.

Definition invalid_url (repoUrl : jsstring) : thrown :=
  Exn JsError (lit "Invalid GitHub URL format: " ++ repoUrl).

Definition parseRepoUrl (inputData : option WorkflowInput) : result StepData :=
  match inputData with
  | None => Throw (Exn JsError (lit "Input data not provided"))
  | Some input =>
      match in_repoUrl input with
      | Some repoUrl =>
          let '(owner, repo) := extract_owner_repo patterns repoUrl in
          if negb (truthy owner) || negb (truthy repo)
          then Throw (invalid_url repoUrl)
          else Ok (Repo {| owner := owner; repo := repo; url := repoUrl |})
      | None =>
          Ok (Diff {| diffContent := in_diffContent input;
                      commitMessage := in_commitMessage input;
                      author := in_author input;
                      commitSha := in_commitSha input |})
      end
  end.

(** ** Step [routeStep]: the diff scanner *)

(** [/diff --git a\/(.+) b\/(.+)/] *)
Definition diff_header : regex :=
  [Lit (lit "diff --git a/"); Group Dot; Lit (lit " b/"); Group Dot].

(** The variables of the scanning loop.  [currentFile] is [None] while it
    still holds [null]. *)
Record Scan := {
  sc_files : list FileChange;
  currentFile : option jsstring;
  sc_additions : Z;
  sc_deletions : Z;
  sc_patch : jsstring
}.

Definition scan_start : Scan :=
  {| sc_files := []; currentFile := None;
     sc_additions := 0; sc_deletions := 0; sc_patch := [] |}.

(** [files.push({...})] guarded by [if (currentFile)]. *)
Definition push_current (st : Scan) : list FileChange :=
  match currentFile st with
  | Some name =>
      if truthy name then
        sc_files st ++
        [{| filename := name;
            additions := sc_additions st;
            deletions := sc_deletions st;
            changes := sc_additions st + sc_deletions st;
            status := lit "modified";
            patch := Some (sc_patch st) |}]
      else sc_files st
  | None => sc_files st
  end.

Definition is_marker (line : jsstring) : bool := startsWith (lit "diff --git") line.

(** [match ? match[2] : ''] *)
Definition marker_filename (line : jsstring) : jsstring :=
  match exec diff_header line with
  | Some m => group 2 m
  | None => []
  end.

Definition is_addition (line : jsstring) : bool :=
  startsWith (lit "+") line && negb (startsWith (lit "+++") line).

Definition is_deletion (line : jsstring) : bool :=
  startsWith (lit "-") line && negb (startsWith (lit "---") line).

(** One iteration of [for (const line of diffLines)]. *)
Definition scan_line (st : Scan) (line : jsstring) : Scan :=
  let st1 :=
    if is_marker line then
      {| sc_files := push_current st;
         currentFile := Some (marker_filename line);
         sc_additions := 0; sc_deletions := 0; sc_patch := [] |}
    else st in
  let st2 :=
    if is_addition line then
      {| sc_files := sc_files st1; currentFile := currentFile st1;
         sc_additions := sc_additions st1 + 1;
         sc_deletions := sc_deletions st1; sc_patch := sc_patch st1 |}
    else if is_deletion line then
      {| sc_files := sc_files st1; currentFile := currentFile st1;
         sc_additions := sc_additions st1;
         sc_deletions := sc_deletions st1 + 1; sc_patch := sc_patch st1 |}
    else st1 in
  {| sc_files := sc_files st2; currentFile := currentFile st2;
     sc_additions := sc_additions st2; sc_deletions := sc_deletions st2;
     sc_patch := sc_patch st2 ++ line ++ [LF] |}.

Definition scan (st : Scan) (diffLines : list jsstring) : Scan :=
  fold_left scan_line diffLines st.

(** The loop followed by the final [if (currentFile) files.push(...)]. *)
Definition parse_lines (diffLines : list jsstring) : list FileChange :=
  push_current (scan scan_start diffLines).

(** [files.reduce((sum, file) => sum + file.additions, 0)] and its twin. *)
Definition totalAdditions (fs : list FileChange) : Z :=
  fold_left (fun sum file => (sum + additions file)%Z) fs 0%Z.

Definition totalDeletions (fs : list FileChange) : Z :=
  fold_left (fun sum file => (sum + deletions file)%Z) fs 0%Z.

(** The [type === 'diff'] branch.  [now] is [new Date().toISOString()]. *)
Definition route_diff (now : jsstring) (d : DiffInput) : result CommitDetail :=
  match diffContent d with
  | None => Throw (read_of_undefined "split")
  | Some text =>
      let fs := parse_lines (split_nl text) in
      Ok {| cd_sha := or_default (commitSha d) (lit "direct-diff");
            cd_message := or_default (commitMessage d) (lit "Direct diff review");
            cd_author := or_default (author d) (lit "Unknown");
            cd_date := now;
            cd_url := [];
            stats := {| st_additions := totalAdditions fs;
                        st_deletions := totalDeletions fs;
                        total := totalAdditions fs + totalDeletions fs |};
            files := fs |}
  end.

(** ** Step [routeStep]: the remote branch *)

Definition api_headers : list (jsstring * jsstring) :=
  [(lit "Accept", lit "application/vnd.github.v3+json");
   (lit "User-Agent", lit "Code-Review-Agent/1.0")].

Definition api_request (u : jsstring) : Request :=
  {| req_url := u; req_headers := api_headers |}.

Definition commitsUrl (r : RepoInfo) : jsstring :=
  lit "https://api.github.com/repos/" ++ owner r ++ lit "/" ++ repo r
  ++ lit "/commits?per_page=5".

Definition detailUrl (r : RepoInfo) (sha : jsstring) : jsstring :=
  lit "https://api.github.com/repos/" ++ owner r ++ lit "/" ++ repo r
  ++ lit "/commits/" ++ sha.

(** [if (!response.ok) throw new Error(`GitHub API error: ...`)] *)
Definition api_error (r : Response) : thrown :=
  Exn JsError (lit "GitHub API error: " ++ show_N (resp_status r) ++ lit " "
               ++ resp_statusText r).

Definition check_ok (r : Response) : result Response :=
  if negb (ok r) then Throw (api_error r) else Ok r.

(** [commits[0]]: the first element of an array, [undefined] for an empty
    array and for an object, which has no property [0]. *)
Definition first_commit (body : Json) : option GitHubCommit :=
  match body with
  | CommitArray (c :: _) => Some c
  | CommitArray [] => None
  | CommitObject _ => None
  end.

(** [latestCommit.sha] *)
Definition latest_sha (latestCommit : option GitHubCommit) : result jsstring :=
  match latestCommit with
  | Some c => Ok (gc_sha c)
  | None => Throw (read_of_undefined "sha")
  end.

(** [commitDetail.author?.login || commitDetail.commit.author.name] *)
Definition author_of (d : GitHubCommitDetail) : jsstring :=
  or_default (option_map login (gh_author d)) (ca_name (ci_author (gh_commit d))).

(** The arrow function of [commitDetail.files.map]: the six properties
    of the canonical shape, nothing else. *)
Definition reshape_file (file : GitHubFile) : FileChange :=
  {| filename := gf_filename file;
     additions := gf_additions file;
     deletions := gf_deletions file;
     changes := gf_changes file;
     status := gf_status file;
     patch := gf_patch file |}.

(** The object literal returned by the remote branch.  On an array the
    property [commit] is [undefined] and reading its [message] throws. *)
Definition shape_detail (r : RepoInfo) (body : Json) : result CommitDetail :=
  match body with
  | CommitObject d =>
      Ok {| cd_sha := gh_sha d;
            cd_message := ci_message (gh_commit d);
            cd_author := author_of d;
            cd_date := ca_date (ci_author (gh_commit d));
            cd_url := lit "https://github.com/" ++ owner r ++ lit "/" ++ repo r
                      ++ lit "/commit/" ++ gh_sha d;
            stats := gh_stats d;
            files := map reshape_file (gh_files d) |}
  | CommitArray _ => Throw (read_of_undefined "message")
  end.

(** [error instanceof Error ? error.message : 'Unknown error'] *)
Definition message_of (e : thrown) : jsstring :=
  match e with
  | Exn _ message => message
  | NonError => lit "Unknown error"
  end.

Definition fetch_failed (e : thrown) : thrown :=
  Exn JsError (lit "Failed to fetch commit details: " ++ message_of e).

Definition route_remote (fetch : Network) (r : RepoInfo) : result CommitDetail :=
  try_catch
    (response <- fetch (api_request (commitsUrl r)) ;;
     response <- check_ok response ;;
     commits <- resp_json response ;;
     sha <- latest_sha (first_commit commits) ;;
     detailResponse <- fetch (api_request (detailUrl r sha)) ;;
     detailResponse <- check_ok detailResponse ;;
     commitDetail <- resp_json detailResponse ;;
     shape_detail r commitDetail)
    (fun error => Throw (fetch_failed error)).

Definition routeStep (fetch : Network) (now : jsstring) (inputData : option StepData)
  : result CommitDetail :=
  match inputData with
  | None => Throw (Exn JsError (lit "Input data not provided"))
  | Some (Diff d) => route_diff now d
  | Some (Repo r) => route_remote fetch r
  end.

(** Normalisation: the workflow's [.then(parseRepoUrl).then(routeStep)],
    the output of one step being the input of the next. *)
Definition normalize (fetch : Network) (now : jsstring) (input : WorkflowInput)
  : result CommitDetail :=
  data <- parseRepoUrl (Some input) ;;
  routeStep fetch now (Some data).

(** ** Specification-level notions

    The vocabulary in which the properties of the scanner are stated:
    the sections of a diff, what a section contributes, and plain sums. *)

(** The lines that follow a marker, up to the next marker (excluded). *)
Fixpoint body_lines (ls : list jsstring) : list jsstring :=
  match ls with
  | [] => []
  | l :: ls' => if is_marker l then [] else l :: body_lines ls'
  end.

(** The sections of a diff in order: every marker line with the lines up
    to the next marker.  Lines before the first marker belong to none. *)
Fixpoint sections (ls : list jsstring) : list (jsstring * list jsstring) :=
  match ls with
  | [] => []
  | l :: ls' =>
      if is_marker l then (l, body_lines ls') :: sections ls' else sections ls'
  end.

(** Every line followed by a newline. *)
Definition with_newlines (ls : list jsstring) : jsstring :=
  List.concat (map (fun l => l ++ [LF]) ls).

Definition count (p : jsstring -> bool) (ls : list jsstring) : Z :=
  Z.of_nat (List.length (filter p ls)).

(** A section is emitted when its marker gave a non-empty file name. *)
Definition emitted (sec : jsstring * list jsstring) : bool :=
  truthy (marker_filename (fst sec)).

(** The record a section is emitted as. *)
Definition section_file (sec : jsstring * list jsstring) : FileChange :=
  {| filename := marker_filename (fst sec);
     additions := count is_addition (snd sec);
     deletions := count is_deletion (snd sec);
     changes := count is_addition (snd sec) + count is_deletion (snd sec);
     status := lit "modified";
     patch := Some (with_newlines (fst sec :: snd sec)) |}.

Definition sum_Z (zs : list Z) : Z := fold_right Z.add 0%Z zs.

(** The additivity invariant of a commit detail. *)
Definition additive (cd : CommitDetail) : Prop :=
  total (stats cd) = (st_additions (stats cd) + st_deletions (stats cd))%Z /\
  st_additions (stats cd) = sum_Z (map additions (files cd)) /\
  st_deletions (stats cd) = sum_Z (map deletions (files cd)).

(** [lines.join('\n')] *)
Fixpoint join_nl (ls : list jsstring) : jsstring :=
  match ls with
  | [] => []
  | [l] => l
  | l :: ls' => l ++ [LF] ++ join_nl ls'
  end.

(** The two request shapes, with nothing but their mandatory field. *)
Definition shapeA (repoUrl : jsstring) : WorkflowInput :=
  {| in_repoUrl := Some repoUrl; in_diffContent := None;
     in_commitMessage := None; in_author := None; in_commitSha := None |}.

Definition shapeB (diffContent : jsstring) : WorkflowInput :=
  {| in_repoUrl := None; in_diffContent := Some diffContent;
     in_commitMessage := None; in_author := None; in_commitSha := None |}.

(** ** Concrete inputs *)

Definition sample_diff : jsstring :=
  join_nl [lit "diff --git a/src/a.js b/src/a.js";
           lit "--- a/src/a.js";
           lit "+++ b/src/a.js";
           lit "@@ -1,2 +1,3 @@";
           lit " x";
           lit "+y";
           lit "-z"].

(** A diff with a line before its first marker and a marker that has no
    [a/... b/...] pair. *)
Definition untidy_diff : jsstring :=
  join_nl [lit "From: someone";
           lit "diff --git a/x.c b/x.c";
           lit "+int x;";
           lit "diff --git x.c";
           lit "+lost";
           lit "-lost too"].

Definition bare_marker : jsstring := lit "diff --git x.c".

Definition acme : RepoInfo :=
  {| owner := lit "acme"; repo := lit "widgets";
     url := lit "https://github.com/acme/widgets" |}.

Definition not_found : Response :=
  {| resp_status := 404; resp_statusText := lit "Not Found";
     resp_json := Throw (Exn JsSyntaxError (lit "Unexpected end of JSON input")) |}.

(** A network on which every request is answered 404. *)
Definition net_404 : Network := fun _ => Ok not_found.

(** A network whose commit list is empty. *)
Definition net_no_commits : Network :=
  fun _ => Ok {| resp_status := 200; resp_statusText := lit "OK";
                 resp_json := Ok (CommitArray []) |}.

Definition some_commit_info : GitHubCommitInfo :=
  {| ci_message := lit "fix";
     ci_author := {| ca_name := lit "Ann"; ca_email := lit "ann@example.org";
                     ca_date := lit "2024-01-01T00:00:00Z" |} |}.

Definition some_commit : GitHubCommit :=
  {| gc_sha := lit "abc"; gc_commit := some_commit_info; gc_author := None |}.

(** A commit detail whose [stats.total] is not the sum of its parts and
    whose single file has other counts than the statistics. *)
Definition odd_detail : GitHubCommitDetail :=
  {| gh_sha := lit "abc"; gh_commit := some_commit_info; gh_author := None;
     gh_files := [{| gf_filename := lit "a.c"; gf_additions := 3; gf_deletions := 0;
                     gf_changes := 3; gf_status := lit "added"; gf_patch := None;
                     gf_others := [(lit "sha", lit "f00") ] |}];
     gh_stats := {| st_additions := 1; st_deletions := 1; total := 5 |} |}.

Definition is_list_request (q : Request) : bool :=
  endsWith (lit "/commits?per_page=5") (req_url q).

(** A network that lists one commit and answers the detail request with [odd_detail]. *)
Definition net_odd : Network :=
  fun q =>
    Ok {| resp_status := 200; resp_statusText := lit "OK";
          resp_json := Ok (if is_list_request q then CommitArray [some_commit]
                           else CommitObject odd_detail) |}.

(** A network whose commit list succeeds and whose detail request is answered 404. *)
Definition net_detail_404 : Network :=
  fun q =>
    if is_list_request q then
      Ok {| resp_status := 200; resp_statusText := lit "OK";
            resp_json := Ok (CommitArray [some_commit]) |}
    else Ok not_found.

(** ** Step [generateCodeReview] and the workflow *)

(** Interpolation of an integer: its decimal digits, with a sign when
    negative (numbers of this size print without an exponent). *)
Definition show_Z (z : Z) : jsstring :=
  if (z <? 0)%Z then lit "-" ++ show_N (Z.abs_N z) else show_N (Z.to_N z).

(** The block of the prompt for one file; the code block is left out
    when [file.patch] is falsy (absent or empty). *)
Definition patch_block (p : option jsstring) : jsstring :=
  match p with
  | Some text =>
      if truthy text then
        join_nl [[]; lit "**Code Changes:**"; lit "```diff"; text; lit "```"; []]
      else []
  | None => []
  end.

Definition file_block (file : FileChange) : jsstring :=
  join_nl [[];
           lit "### " ++ filename file;
           lit "- Status: " ++ status file;
           lit "- Changes: +" ++ show_Z (additions file) ++ lit " -"
             ++ show_Z (deletions file) ++ lit " (" ++ show_Z (changes file)
             ++ lit " total)";
           patch_block (patch file);
           []].

(** The template literal [prompt]. *)
Definition prompt_of (inputData : CommitDetail) : jsstring :=
  join_nl
    [lit "Please provide a comprehensive code review for the following commit:";
     [];
     lit "**Commit Information:**";
     lit "- SHA: " ++ cd_sha inputData;
     lit "- Message: " ++ cd_message inputData;
     lit "- Author: " ++ cd_author inputData;
     lit "- Date: " ++ cd_date inputData;
     lit "- URL: " ++ cd_url inputData;
     [];
     lit "**Statistics:**";
     lit "- Files changed: " ++ show_N (N.of_nat (List.length (files inputData)));
     lit "- Lines added: " ++ show_Z (st_additions (stats inputData));
     lit "- Lines deleted: " ++ show_Z (st_deletions (stats inputData));
     lit "- Total changes: " ++ show_Z (total (stats inputData));
     [];
     lit "**File Changes:**";
     join_nl (map file_block (files inputData));
     [];
     lit "Please analyze this commit according to your code review guidelines and provide a detailed review report with:";
     lit "1. Overview and summary";
     lit "2. Detailed analysis of positive points and issues";
     lit "3. Specific file-by-file review";
     lit "4. Recommendations for improvement";
     lit "5. Overall rating and action items";
     [];
     lit "Focus on security, performance, code quality, best practices, architecture, and maintainability."].

Record Message := {
  role : jsstring;
  content : jsstring
}.

(** What iterating [response.textStream] gives: the fragments in order,
    then the normal end ([None]) or an exception. *)
Record TextStream := {
  chunks : list jsstring;
  failure : option thrown
}.

(** [agent.stream(messages)]: the call rejects or gives a stream. *)
Definition Agent := list Message -> result TextStream.

(** The [getAgent] of a [mastra] object: an agent, a falsy value
    ([None]), or an exception. *)
Definition Mastra := jsstring -> result (option Agent).

(** [mastra?.getAgent(name)]: [undefined] when there is no [mastra]. *)
Definition getAgent (mastra : option Mastra) (name : jsstring) : result (option Agent) :=
  match mastra with
  | Some registry => registry name
  | None => Ok None
  end.

Record Review := { review : jsstring }.

(** What the step leaves behind: the writes to [process.stdout], in order. *)
Definition Stdout := list jsstring.

(** One iteration of [for await (const chunk of response.textStream)]. *)
Definition consume_chunk (st : Stdout * jsstring) (chunk : jsstring) : Stdout * jsstring :=
  (fst st ++ [chunk], snd st ++ chunk).

Definition consume (cs : list jsstring) (st : Stdout * jsstring) : Stdout * jsstring :=
  fold_left consume_chunk cs st.

Definition generateCodeReview (mastra : option Mastra) (inputData : option CommitDetail)
  : Stdout * result Review :=
  match inputData with
  | None => ([], Throw (Exn JsError (lit "Commit detail not found")))
  | Some detail =>
      match getAgent mastra (lit "codeReviewAgent") with
      | Throw e => ([], Throw e)
      | Ok None => ([], Throw (Exn JsError (lit "Code Review agent not found")))
      | Ok (Some agent) =>
          match agent [{| role := lit "user"; content := prompt_of detail |}] with
          | Throw e => ([], Throw e)
          | Ok response =>
              let '(out, reviewText) := consume (chunks response) ([], []) in
              match failure response with
              | Some e => (out, Throw e)
              | None => (out, Ok {| review := reviewText |})
              end
          end
      end
  end.

(** [.then(parseRepoUrl).then(routeStep).then(generateCodeReview)]: a
    step that throws ends the run. *)
Definition codeReviewWorkflow (mastra : option Mastra) (fetch : Network) (now : jsstring)
    (input : WorkflowInput) : Stdout * result Review :=
  match normalize fetch now input with
  | Throw e => ([], Throw e)
  | Ok detail => generateCodeReview mastra (Some detail)
  end.

(** ** The GitHub tools *)

Module GitHubTool.

Record RepoName := {
  rn_owner : jsstring;
  rn_repo : jsstring
}.

(** The loop of [parseRepoUrlTool], which returns from inside. *)
Fixpoint first_match (ps : list regex) (url : jsstring) : option RepoName :=
  match ps with
  | [] => None
  | pattern :: ps' =>
      match exec pattern url with
      | Some m => Some {| rn_owner := group 1 m; rn_repo := strip_git (group 2 m) |}
      | None => first_match ps' url
      end
  end.

Definition parseRepoUrlTool (url : jsstring) : result RepoName :=
  match first_match patterns url with
  | Some r => Ok r
  | None => Throw (invalid_url url)
  end.

(** An element of [commitsSchema]. *)
Record CommitSummary := {
  cs_sha : jsstring;
  cs_message : jsstring;
  cs_author : jsstring;
  cs_date : jsstring;
  cs_url : jsstring
}.

Record Commits := { commits : list CommitSummary }.

Definition commit_url (owner repo sha : jsstring) : jsstring :=
  lit "https://github.com/" ++ owner ++ lit "/" ++ repo ++ lit "/commit/" ++ sha.

(** The arrow function of [commits.map]. *)
Definition summarize (owner repo : jsstring) (commit : GitHubCommit) : CommitSummary :=
  {| cs_sha := gc_sha commit;
     cs_message := ci_message (gc_commit commit);
     cs_author := or_default (option_map login (gc_author commit))
                             (ca_name (ci_author (gc_commit commit)));
     cs_date := ca_date (ci_author (gc_commit commit));
     cs_url := commit_url owner repo (gc_sha commit) |}.

(** The message of the [TypeError] for a call of a property that is no function. *)
Definition not_a_function (callee : string) : thrown :=
  Exn JsTypeError (lit callee ++ lit " is not a function").
Arguments not_a_function callee%_string.

(** [commits.map(...)]: an object has no [map]. *)
Definition map_commits (owner repo : jsstring) (body : Json) : result Commits :=
  match body with
  | CommitArray l => Ok {| commits := map (summarize owner repo) l |}
  | CommitObject _ => Throw (not_a_function "commits.map")
  end.

Definition wrap (stage : jsstring) (e : thrown) : thrown :=
  Exn JsError (stage ++ message_of e).

Record CommitsContext := {
  cc_owner : jsstring;
  cc_repo : jsstring;
  cc_per_page : option Z
}.

(** [const { owner, repo, per_page = 10 } = context] *)
Definition per_page_of (c : CommitsContext) : Z :=
  match cc_per_page c with
  | Some n => n
  | None => 10%Z
  end.

Definition list_url (owner repo : jsstring) (per_page : Z) : jsstring :=
  lit "https://api.github.com/repos/" ++ owner ++ lit "/" ++ repo
  ++ lit "/commits?per_page=" ++ show_Z per_page.

Definition getCommitsTool (fetch : Network) (context : CommitsContext) : result Commits :=
  try_catch
    (response <- fetch (api_request (list_url (cc_owner context) (cc_repo context)
                                              (per_page_of context))) ;;
     response <- check_ok response ;;
     body <- resp_json response ;;
     map_commits (cc_owner context) (cc_repo context) body)
    (fun error => Throw (wrap (lit "Failed to fetch commits: ") error)).

Record DetailContext := {
  dc_owner : jsstring;
  dc_repo : jsstring;
  dc_sha : jsstring
}.

Definition getCommitDetailTool (fetch : Network) (context : DetailContext)
  : result CommitDetail :=
  let r := {| owner := dc_owner context; repo := dc_repo context; url := [] |} in
  try_catch
    (response <- fetch (api_request (detailUrl r (dc_sha context))) ;;
     response <- check_ok response ;;
     commitDetail <- resp_json response ;;
     shape_detail r commitDetail)
    (fun error => Throw (wrap (lit "Failed to fetch commit detail: ") error)).

End GitHubTool.

(** ** The workflow with three remote steps

    The version of the workflow in which the remote path is the steps
    [parseRepoUrl], [fetchRecentCommits] and [analyzeLatestCommit]. *)

Module ThreeSteps.

Import GitHubTool.

Definition parseRepoUrl (inputData : option jsstring) : result RepoInfo :=
  match inputData with
  | None => Throw (Exn JsError (lit "Repository URL not provided"))
  | Some repoUrl =>
      let '(owner, repo) := extract_owner_repo patterns repoUrl in
      if negb (truthy owner) || negb (truthy repo)
      then Throw (invalid_url repoUrl)
      else Ok {| owner := owner; repo := repo; url := repoUrl |}
  end.

Definition fetchRecentCommits (fetch : Network) (inputData : option RepoInfo)
  : result Commits :=
  match inputData with
  | None => Throw (Exn JsError (lit "Repository information not found"))
  | Some r =>
      try_catch
        (response <- fetch (api_request (commitsUrl r)) ;;
         response <- check_ok response ;;
         body <- resp_json response ;;
         map_commits (owner r) (repo r) body)
        (fun error => Throw (wrap (lit "Failed to fetch commits: ") error))
  end.

(** [s.split('/')] and the like: never empty. *)
Fixpoint split_on (sep : char) (s : jsstring) : list jsstring :=
  match s with
  | [] => [[]]
  | c :: s' =>
      if N.eqb c sep then [] :: split_on sep s'
      else match split_on sep s' with
           | l :: ls => (c :: l) :: ls
           | [] => [[c]]
           end
  end.

Definition SLASH : char := 47%N.

(** Interpolation of an array element that may be [undefined]. *)
Definition interpolate (o : option jsstring) : jsstring :=
  match o with
  | Some s => s
  | None => lit "undefined"
  end.

Definition analyzeLatestCommit (fetch : Network) (inputData : option Commits)
  : result CommitDetail :=
  match inputData with
  | None => Throw (Exn JsError (lit "No commits found"))
  | Some data =>
      match commits data with
      | [] => Throw (Exn JsError (lit "No commits found"))
      | latestCommit :: _ =>
          let urlParts := split_on SLASH (cs_url latestCommit) in
          let r := {| owner := interpolate (nth_error urlParts 3);
                      repo := interpolate (nth_error urlParts 4);
                      url := [] |} in
          try_catch
            (response <- fetch (api_request (detailUrl r (cs_sha latestCommit))) ;;
             response <- check_ok response ;;
             commitDetail <- resp_json response ;;
             shape_detail r commitDetail)
            (fun error => Throw (wrap (lit "Failed to fetch commit detail: ") error))
      end
  end.

(** [.then(parseRepoUrl).then(fetchRecentCommits).then(analyzeLatestCommit)] *)
Definition remote_steps (fetch : Network) (repoUrl : jsstring) : result CommitDetail :=
  r <- parseRepoUrl (Some repoUrl) ;;
  cs <- fetchRecentCommits fetch (Some r) ;;
  analyzeLatestCommit fetch (Some cs).

End ThreeSteps.

(** ** More specification-level notions *)

(** No code unit of [cs] occurs in [s]. *)
Definition free_of (cs : list char) (s : jsstring) : Prop :=
  forallb (accepts (NoneOf cs)) s = true.

(** [s] does not start with the code unit [x]. *)
Definition head_is_not (x : char) (s : jsstring) : Prop :=
  match s with
  | [] => True
  | c :: _ => N.eqb c x = false
  end.

(** The text written to the standard output, all writes put together. *)
Definition written (out : Stdout) : jsstring := List.concat out.

(** What every FileChange of a parsed diff satisfies. *)
Definition well_formed_file (f : FileChange) : Prop :=
  status f = lit "modified" /\
  changes f = (additions f + deletions f)%Z /\
  (0 <= additions f)%Z /\ (0 <= deletions f)%Z /\
  filename f <> [] /\
  forallb (accepts Dot) (filename f) = true /\
  exists p, patch f = Some p /\ startsWith (lit "diff --git") p = true.

(** A network on which [fetch] rejects. *)
Definition net_down : Network :=
  fun _ => Throw (Exn JsTypeError (lit "fetch failed")).

(** A network that lists one commit and answers the detail request with a
    file-less commit. *)
Definition plain_detail : GitHubCommitDetail :=
  {| gh_sha := lit "abc"; gh_commit := some_commit_info;
     gh_author := Some {| login := lit "ann" |};
     gh_files := [];
     gh_stats := {| st_additions := 0; st_deletions := 0; total := 0 |} |}.

Definition net_plain : Network :=
  fun q =>
    Ok {| resp_status := 200; resp_statusText := lit "OK";
          resp_json := Ok (if is_list_request q then CommitArray [some_commit]
                           else CommitObject plain_detail) |}.

(** An agent that answers in two fragments, one that breaks off after
    the first, and the registries that hold them. *)
Definition two_chunks : Agent :=
  fun _ => Ok {| chunks := [lit "Looks "; lit "good."]; failure := None |}.

Definition broken_stream : Agent :=
  fun _ => Ok {| chunks := [lit "Looks "];
                 failure := Some (Exn JsError (lit "stream closed")) |}.

Definition registry_of (a : Agent) : Mastra :=
  fun name => Ok (if jseqb name (lit "codeReviewAgent") then Some a else None).

Definition two_diffs_a : jsstring :=
  join_nl [lit "diff --git a/one.c b/one.c"; lit "+a"; lit "+b"].

Definition two_diffs_b : jsstring :=
  join_nl [lit "diff --git a/two.c b/two.c"; lit "-c"].

(** * Properties *)

(** ** Strings *)

Section Strings.

Lemma jseqb_refl (s : jsstring) : jseqb s s = true.
Proof.
  induction s as [|c s IH]; simpl; [reflexivity|].
  now rewrite N.eqb_refl.
Qed.

Lemma jseqb_eq (s t : jsstring) : jseqb s t = true <-> s = t.
Proof.
  split; [|intros ->; apply jseqb_refl].
  revert t; induction s as [|c s IH]; intros [|d t]; simpl; try discriminate; auto.
  intros H. apply andb_true_iff in H as [Hc Hs].
  apply N.eqb_eq in Hc. f_equal; auto.
Qed.

Lemma strip_prefix_app (p s : jsstring) : strip_prefix p (p ++ s) = Some s.
Proof.
  induction p as [|c p IH]; simpl; [reflexivity|].
  now rewrite N.eqb_refl.
Qed.

Lemma endsWith_app (p s : jsstring) : endsWith p (s ++ p) = true.
Proof.
  unfold endsWith. rewrite length_app.
  replace (List.length s + List.length p - List.length p)%nat with (List.length s + 0)%nat by lia.
  rewrite skipn_app, Nat.add_0_r, skipn_all, Nat.sub_diag. simpl.
  rewrite jseqb_refl, andb_true_r. apply Nat.leb_le. lia.
Qed.

Lemma slice_0_neg_app (p s : jsstring) : slice_0_neg (List.length p) (s ++ p) = s.
Proof.
  unfold slice_0_neg. rewrite length_app.
  replace (List.length s + List.length p - List.length p)%nat with (List.length s + 0)%nat by lia.
  rewrite firstn_app_2. simpl. apply app_nil_r.
Qed.

(** [split] undoes [join] on lines that hold no newline. *)
Lemma split_join (ls : list jsstring) :
  ls <> [] -> Forall (fun l => ~ In LF l) ls -> split_nl (join_nl ls) = ls.
Proof.
  assert (Hline : forall l rest, ~ In LF l ->
            split_nl (l ++ LF :: rest) = l :: split_nl rest).
  { induction l as [|c l IH]; intros rest Hl; simpl.
    - reflexivity.
    - destruct (N.eqb_spec c LF) as [->|_]; [exfalso; apply Hl; now left|].
      rewrite IH by (intros Hin; apply Hl; now right). reflexivity. }
  assert (Hlast : forall l, ~ In LF l -> split_nl l = [l]).
  { induction l as [|c l IH]; intros Hl; simpl.
    - reflexivity.
    - destruct (N.eqb_spec c LF) as [->|_]; [exfalso; apply Hl; now left|].
      rewrite IH by (intros Hin; apply Hl; now right). reflexivity. }
  induction ls as [|l ls IH]; intros Hne Hall; [congruence|].
  inversion Hall as [|? ? Hl Hls]; subst.
  destruct ls as [|l' ls].
  - simpl. now apply Hlast.
  - change (join_nl (l :: l' :: ls)) with (l ++ LF :: join_nl (l' :: ls)).
    rewrite Hline by assumption. f_equal. apply IH; [discriminate|assumption].
Qed.

End Strings.

(** ** The regular-expression matcher *)

Section Matcher.

Import Regex.

(** Failure of [C+ k] is monotone in the continuation. *)
Lemma plus_none_mono {A B} C (k1 : jsstring -> option A) (k2 : jsstring -> option B) :
  (forall s, k1 s = None -> k2 s = None) ->
  forall s, plus C k1 s = None -> plus C k2 s = None.
Proof.
  intros Hk. induction s as [|c s IH]; simpl; [reflexivity|].
  destruct (accepts C c); [|reflexivity].
  destruct (plus C k1 s) as [[g r]|] eqn:E1; [discriminate|].
  rewrite IH by reflexivity.
  destruct (k1 s) eqn:E2; [discriminate|].
  now rewrite Hk.
Qed.

(** A maximal run of accepted code units is what a greedy group takes
    when the rest of the pattern accepts what follows the run. *)
Lemma plus_run {A} C (k : jsstring -> option A) g rest r :
  g <> [] ->
  forallb (accepts C) g = true ->
  plus C k rest = None ->
  k rest = Some r ->
  plus C k (g ++ rest) = Some (g, r).
Proof.
  intros Hne Hall Hrest Hk.
  induction g as [|c g IH]; [congruence|].
  simpl in Hall. apply andb_true_iff in Hall as [Hc Hg].
  simpl. rewrite Hc.
  destruct g as [|c' g].
  - simpl. now rewrite Hrest, Hk.
  - rewrite IH; [reflexivity|discriminate|assumption].
Qed.

(** A longer pattern fails wherever a prefix of it fails. *)
Lemma match_here_app_none (re extra : regex) s :
  match_here re s = None -> match_here (re ++ extra) s = None.
Proof.
  revert s; induction re as [|[l|C] re IH]; intros s; simpl.
  - discriminate.
  - destruct (strip_prefix l s); [apply IH|reflexivity].
  - intros H.
    destruct (plus C (match_here re) s) as [[g [caps rest]]|] eqn:E; [discriminate|].
    now rewrite (plus_none_mono C (match_here re) (match_here (re ++ extra)) (IH) s E).
Qed.

Lemma exec_app_none (re extra : regex) s :
  exec re s = None -> exec (re ++ extra) s = None.
Proof.
  induction s as [|c s IH]; simpl.
  - destruct (match_here re []) as [[caps rest]|] eqn:E; [discriminate|].
    now rewrite match_here_app_none.
  - destruct (match_here re (c :: s)) as [[caps rest]|] eqn:E; [discriminate|].
    rewrite match_here_app_none by assumption. exact IH.
Qed.

End Matcher.

(** ** URL extraction *)

Section UrlExtraction.

Import Regex.

(** What a successful greedy group took and what it left. *)
Lemma plus_sound {A} C (k : jsstring -> option A) s g r :
  plus C k s = Some (g, r) ->
  exists s', s = g ++ s' /\ k s' = Some r /\ forallb (accepts C) g = true /\ g <> [].
Proof.
  revert g r; induction s as [|c s IH]; intros g r; simpl; [discriminate|].
  destruct (accepts C c) eqn:Hc; [|discriminate].
  destruct (plus C k s) as [[g' r']|] eqn:E.
  - intros [= <- <-]. destruct (IH _ _ eq_refl) as (s' & -> & Hk & Hall & _).
    exists s'. simpl. rewrite Hc. repeat split; auto. discriminate.
  - destruct (k s) eqn:Ek; [|discriminate]. intros [= <- <-].
    exists s. simpl. rewrite Hc. repeat split; auto. discriminate.
Qed.

Lemma exec_hit (re : regex) s caps rest :
  match_here re s = Some (caps, rest) ->
  exec re s = Some (firstn (List.length s - List.length rest) s :: caps).
Proof.
  intros H. destruct s; simpl; now rewrite H.
Qed.

Lemma exec_miss l (re : regex) c s :
  startsWith (firstn 1 l) [c] = false ->
  exec (Lit l :: re) (c :: s) = exec (Lit l :: re) s.
Proof.
  intros H.
  assert (E : match_here (Lit l :: re) (c :: s) = None).
  { simpl. destruct l as [|c0 l]; [discriminate|]. simpl in *.
    rewrite andb_true_r in H. now rewrite H. }
  destruct s; simpl in *; now rewrite E.
Qed.

(** Text in which the first code unit of the pattern does not occur is
    skipped by the search. *)
Lemma exec_skip_prefix l (re : regex) pre s :
  forallb (fun c => negb (startsWith (firstn 1 l) [c])) pre = true ->
  exec (Lit l :: re) (pre ++ s) = exec (Lit l :: re) s.
Proof.
  induction pre as [|c pre IH]; intros H; [reflexivity|].
  simpl in H. apply andb_true_iff in H as [Hc Hpre].
  change ((c :: pre) ++ s) with (c :: pre ++ s).
  rewrite exec_miss by now apply negb_true_iff.
  now apply IH.
Qed.

(** The match array of the repository pattern: the whole match and two
    non-empty segments. *)
Lemma match_here_repo_shape s caps rest :
  match_here repo_pattern s = Some (caps, rest) ->
  exists o r, caps = [o; r] /\ o <> [] /\ r <> [].
Proof.
  unfold repo_pattern. cbn [match_here].
  destruct (strip_prefix _ s) as [s1|]; [|discriminate].
  destruct (plus _ _ s1) as [[o [caps1 rest1]]|] eqn:E1; [|discriminate].
  intros [= <- <-].
  destruct (plus_sound _ _ _ E1) as (s2 & _ & Hk & _ & Ho).
  destruct (strip_prefix _ s2) as [s3|]; [|discriminate].
  destruct (plus _ _ s3) as [[r [caps2 rest2]]|] eqn:E2; [|discriminate].
  injection Hk as <- <-.
  destruct (plus_sound _ _ _ E2) as (s4 & _ & Hk2 & _ & Hr).
  injection Hk2 as <- _.
  now exists o, r.
Qed.

Lemma exec_repo_shape u m :
  exec repo_pattern u = Some m ->
  exists w o r, m = [w; o; r] /\ o <> [] /\ r <> [].
Proof.
  induction u as [|c u IH]; cbn [exec].
  - destruct (match_here repo_pattern []) as [[caps rest]|] eqn:E; [|discriminate].
    intros [= <-]. destruct (match_here_repo_shape _ E) as (o & r & -> & Ho & Hr).
    do 3 eexists. split; [reflexivity|now split].
  - destruct (match_here repo_pattern (c :: u)) as [[caps rest]|] eqn:E; [|exact IH].
    intros [= <-]. destruct (match_here_repo_shape _ E) as (o & r & -> & Ho & Hr).
    do 3 eexists. split; [reflexivity|now split].
Qed.

Lemma repo_git_pattern_extends :
  repo_git_pattern = repo_pattern ++ [Lit (lit ".git")].
Proof. reflexivity. Qed.

(** When the first pattern finds nothing, neither does the second, and
    the loop leaves [owner] and [repo] empty. *)
Lemma extract_no_match u :
  exec repo_pattern u = None -> extract_owner_repo patterns u = ([], []).
Proof.
  intros H. unfold patterns. simpl.
  rewrite H, repo_git_pattern_extends, exec_app_none by assumption.
  reflexivity.
Qed.

Lemma strip_git_suffix r : strip_git (r ++ lit ".git") = r.
Proof.
  unfold strip_git. rewrite endsWith_app.
  change 4%nat with (List.length (lit ".git")). apply slice_0_neg_app.
Qed.

Lemma truthy_nonempty s : s <> [] -> truthy s = true.
Proof. destruct s; [congruence|reflexivity]. Qed.

Lemma match_here_Lit l (re : regex) s :
  match_here (Lit l :: re) (l ++ s) = match_here re s.
Proof. cbn [match_here]. now rewrite strip_prefix_app. Qed.

Lemma match_here_Group C (re : regex) g s caps rest :
  g <> [] -> forallb (accepts C) g = true ->
  plus C (match_here re) s = None ->
  match_here re s = Some (caps, rest) ->
  match_here (Group C :: re) (g ++ s) = Some (g :: caps, rest).
Proof.
  intros Hg Hall Hs Hk. cbn [match_here].
  now rewrite plus_run with (r := (caps, rest)).
Qed.

(** The repository pattern on a URL of the usual form. *)
Lemma exec_https_url o seg :
  o <> [] -> forallb (accepts (NoneOf (lit "/"))) o = true ->
  seg <> [] -> forallb (accepts (NoneOf (lit "/?#"))) seg = true ->
  exec repo_pattern (lit "https://github.com/" ++ o ++ lit "/" ++ seg)
  = Some [lit "github.com/" ++ o ++ lit "/" ++ seg; o; seg].
Proof.
  intros Ho Hoa Hs Hsa.
  assert (Hm : match_here repo_pattern (lit "github.com/" ++ o ++ lit "/" ++ seg)
               = Some ([o; seg], [])).
  { unfold repo_pattern. rewrite match_here_Lit.
    apply match_here_Group; [assumption|assumption|reflexivity|].
    rewrite match_here_Lit. rewrite <- (app_nil_r seg) at 1.
    apply match_here_Group; [assumption|assumption|reflexivity|reflexivity]. }
  change (lit "https://github.com/") with (lit "https://" ++ lit "github.com/").
  rewrite <- app_assoc.
  unfold repo_pattern at 1. rewrite exec_skip_prefix by reflexivity.
  fold repo_pattern.
  rewrite (exec_hit _ _ Hm). simpl List.length at 2.
  now rewrite Nat.sub_0_r, firstn_all.
Qed.

End UrlExtraction.

(** ** The diff scanner *)

Ltac eval_lits :=
  repeat match goal with
         | |- context [lit ?s] =>
             let v := eval vm_compute in (lit s) in change (lit s) with v
         end.

Section Scanner.

Lemma marker_not_addition l : is_marker l = true -> is_addition l = false.
Proof.
  unfold is_marker, is_addition. eval_lits.
  destruct l as [|c l]; [discriminate|]. cbn [startsWith].
  destruct (N.eqb_spec 100 c) as [<-|]; [reflexivity|discriminate].
Qed.

Lemma marker_not_deletion l : is_marker l = true -> is_deletion l = false.
Proof.
  unfold is_marker, is_deletion. eval_lits.
  destruct l as [|c l]; [discriminate|]. cbn [startsWith].
  destruct (N.eqb_spec 100 c) as [<-|]; [reflexivity|discriminate].
Qed.

Lemma addition_not_deletion l : is_addition l = true -> is_deletion l = false.
Proof.
  unfold is_addition, is_deletion. eval_lits.
  destruct l as [|c l]; [discriminate|]. cbn [startsWith].
  destruct (N.eqb_spec 43 c) as [<-|]; [reflexivity|discriminate].
Qed.

(** A marker line closes the open section and opens a new one, whose
    patch starts with the marker itself. *)
Lemma scan_line_marker st l :
  is_marker l = true ->
  scan_line st l =
  {| sc_files := push_current st;
     currentFile := Some (marker_filename l);
     sc_additions := 0; sc_deletions := 0;
     sc_patch := l ++ [LF] |}.
Proof.
  intros H. unfold scan_line.
  now rewrite H, (marker_not_addition _ H), (marker_not_deletion _ H).
Qed.

(** Any other line only moves the counters and the patch. *)
Lemma scan_line_body st l :
  is_marker l = false ->
  scan_line st l =
  {| sc_files := sc_files st;
     currentFile := currentFile st;
     sc_additions := sc_additions st + count is_addition [l];
     sc_deletions := sc_deletions st + count is_deletion [l];
     sc_patch := sc_patch st ++ l ++ [LF] |}.
Proof.
  intros H. unfold scan_line, count. rewrite H. cbn [filter].
  destruct (is_addition l) eqn:Ea.
  - rewrite (addition_not_deletion _ Ea). cbn. now rewrite Z.add_0_r.
  - destruct (is_deletion l); cbn; now rewrite ?Z.add_0_r.
Qed.

Lemma count_cons p l ls : count p (l :: ls) = (count p [l] + count p ls)%Z.
Proof.
  unfold count. cbn [filter]. destruct (p l); cbn [List.length]; lia.
Qed.

Lemma with_newlines_cons l ls : with_newlines (l :: ls) = l ++ [LF] ++ with_newlines ls.
Proof. unfold with_newlines. cbn [map List.concat]. now rewrite <- app_assoc. Qed.

Lemma body_lines_no_marker ls : Forall (fun l => is_marker l = false) (body_lines ls).
Proof.
  induction ls as [|l ls IH]; cbn [body_lines]; [constructor|].
  destruct (is_marker l) eqn:E; constructor; assumption.
Qed.

(** Scanning lines that hold no marker. *)
Lemma scan_body st body :
  Forall (fun l => is_marker l = false) body ->
  scan st body =
  {| sc_files := sc_files st;
     currentFile := currentFile st;
     sc_additions := sc_additions st + count is_addition body;
     sc_deletions := sc_deletions st + count is_deletion body;
     sc_patch := sc_patch st ++ with_newlines body |}.
Proof.
  intros H. revert st. induction H as [|l body Hl _ IH]; intros st.
  - cbn. rewrite !Z.add_0_r, app_nil_r. now destruct st.
  - change (scan st (l :: body)) with (scan (scan_line st l) body).
    rewrite IH, (scan_line_body _ _ Hl). cbn [sc_files currentFile sc_additions sc_deletions sc_patch].
    rewrite (count_cons is_addition l body), (count_cons is_deletion l body), with_newlines_cons.
    f_equal; try lia. now rewrite <- !app_assoc.
Qed.

(** What the final [files.push] adds after a marker and its body. *)
Lemma push_after_section st m body :
  is_marker m = true -> Forall (fun l => is_marker l = false) body ->
  push_current (scan (scan_line st m) body)
  = push_current st ++ map section_file (filter emitted [(m, body)]).
Proof.
  intros Hm Hbody. rewrite (scan_body _ Hbody), (scan_line_marker _ _ Hm).
  unfold push_current at 1, emitted, section_file.
  cbn [sc_files currentFile sc_additions sc_deletions sc_patch filter map fst snd].
  destruct (truthy (marker_filename m)); [|now rewrite app_nil_r].
  cbn [map]. rewrite with_newlines_cons, !Z.add_0_l. now rewrite <- app_assoc.
Qed.

(** The loop invariant: the files after the final push are those of the
    open section, extended by the lines up to the next marker, followed
    by the emitted sections of the remaining lines. *)
Lemma push_scan st ls :
  push_current (scan st ls)
  = push_current (scan st (body_lines ls))
    ++ map section_file (filter emitted (sections ls)).
Proof.
  revert st; induction ls as [|l ls IH]; intros st.
  - cbn [body_lines sections filter map]. now rewrite app_nil_r.
  - cbn [body_lines sections]. destruct (is_marker l) eqn:Hl.
    + change (scan st (l :: ls)) with (scan (scan_line st l) ls).
      rewrite IH, (push_after_section st l Hl (body_lines_no_marker ls)).
      change (scan st []) with st.
      rewrite <- app_assoc. f_equal.
      cbn [filter]. destruct (emitted (l, body_lines ls)); reflexivity.
    + change (scan st (l :: ls)) with (scan (scan_line st l) ls).
      change (scan st (l :: body_lines ls)) with (scan (scan_line st l) (body_lines ls)).
      apply IH.
Qed.

(** The scanner emits exactly the sections that have a file name. *)
Lemma parse_lines_sections ls :
  parse_lines ls = map section_file (filter emitted (sections ls)).
Proof.
  unfold parse_lines. rewrite push_scan.
  rewrite (scan_body _ (body_lines_no_marker ls)). reflexivity.
Qed.

Lemma body_lines_app xs ys :
  body_lines ys = [] -> body_lines (xs ++ ys) = body_lines xs.
Proof.
  intros H. induction xs as [|x xs IH]; [exact H|].
  cbn [app body_lines]. destruct (is_marker x); [reflexivity|now rewrite IH].
Qed.

(** Sections do not straddle a marker or the end of the input. *)
Lemma sections_app xs ys :
  body_lines ys = [] -> sections (xs ++ ys) = sections xs ++ sections ys.
Proof.
  intros H. induction xs as [|x xs IH]; [reflexivity|].
  cbn [app sections]. rewrite IH, (body_lines_app _ _ H).
  destruct (is_marker x); reflexivity.
Qed.

Lemma parse_lines_app xs ys :
  body_lines ys = [] -> parse_lines (xs ++ ys) = parse_lines xs ++ parse_lines ys.
Proof.
  intros H. rewrite !parse_lines_sections, (sections_app _ _ H).
  now rewrite filter_app, map_app.
Qed.

(** The two reductions are plain sums. *)
Lemma fold_add_sum {A} (f : A -> Z) (xs : list A) (z : Z) :
  fold_left (fun sum x => (sum + f x)%Z) xs z = (z + sum_Z (map f xs))%Z.
Proof.
  revert z; induction xs as [|x xs IH]; intros z; cbn.
  - lia.
  - rewrite IH. unfold sum_Z. lia.
Qed.

Lemma totalAdditions_sum fs : totalAdditions fs = sum_Z (map additions fs).
Proof. unfold totalAdditions. now rewrite fold_add_sum. Qed.

Lemma totalDeletions_sum fs : totalDeletions fs = sum_Z (map deletions fs).
Proof. unfold totalDeletions. now rewrite fold_add_sum. Qed.

Lemma sum_Z_app xs ys : sum_Z (xs ++ ys) = (sum_Z xs + sum_Z ys)%Z.
Proof. unfold sum_Z. induction xs as [|x xs IH]; cbn; lia. Qed.

End Scanner.

(** ** The two paths of normalisation *)

Section Paths.

Variable fetch : Network.
Variable now : jsstring.

(** With [repoUrl] present, normalisation is the URL check followed by
    the remote branch. *)
Lemma normalize_repoUrl input u :
  in_repoUrl input = Some u ->
  (exists r, parseRepoUrl (Some input) = Ok (Repo r) /\ url r = u /\
             normalize fetch now input = route_remote fetch r)
  \/ (parseRepoUrl (Some input) = Throw (invalid_url u) /\
      normalize fetch now input = Throw (invalid_url u)).
Proof.
  intros Hu. unfold normalize, parseRepoUrl. rewrite Hu.
  destruct (extract_owner_repo patterns u) as [o r].
  destruct (negb (truthy o) || negb (truthy r)).
  - right. split; reflexivity.
  - left. eexists. split; [reflexivity|]. split; reflexivity.
Qed.

(** Without it, normalisation is the diff branch on the fields as given. *)
Lemma normalize_no_repoUrl input :
  in_repoUrl input = None ->
  normalize fetch now input =
  route_diff now {| diffContent := in_diffContent input;
                    commitMessage := in_commitMessage input;
                    author := in_author input;
                    commitSha := in_commitSha input |}.
Proof.
  intros Hu. unfold normalize, parseRepoUrl. now rewrite Hu.
Qed.

(** The remote branch returns the payload of some answered request, its
    statistics and its files untouched. *)
Lemma route_remote_passthrough r cd :
  route_remote fetch r = Ok cd ->
  exists q resp d,
    fetch q = Ok resp /\ resp_json resp = Ok (CommitObject d) /\
    stats cd = gh_stats d /\ files cd = map reshape_file (gh_files d).
Proof.
  unfold route_remote, try_catch, bind.
  destruct (fetch (api_request (commitsUrl r))) as [resp1|]; [|discriminate].
  destruct (check_ok resp1) as [resp1'|]; [|discriminate].
  destruct (resp_json resp1') as [body|]; [|discriminate].
  destruct (latest_sha (first_commit body)) as [sha|]; [|discriminate].
  destruct (fetch (api_request (detailUrl r sha))) as [resp2|] eqn:E2; [|discriminate].
  unfold check_ok. destruct (negb (ok resp2)); [discriminate|].
  destruct (resp_json resp2) as [[l|d]|] eqn:Ej; cbn [shape_detail]; try discriminate.
  intros [= <-]. exists (api_request (detailUrl r sha)), resp2, d.
  repeat split; assumption.
Qed.

Lemma route_diff_additive d cd : route_diff now d = Ok cd -> additive cd.
Proof.
  unfold route_diff. destruct (diffContent d) as [text|]; [|discriminate].
  intros [= <-]. unfold additive. cbn [stats files st_additions st_deletions total].
  rewrite <- totalAdditions_sum, <- totalDeletions_sum. repeat split.
Qed.

End Paths.

(** * The claims *)

(** C1, as stated, fails: on the remote path the statistics are those of
    the API payload, whatever they are.  Here the payload announces
    a total of 5 for 1 addition and 1 deletion. *)
Lemma additivity_fails_on_remote_path :
  ~ (forall fetch now input cd, normalize fetch now input = Ok cd -> additive cd).
Proof.
  intros H.
  assert (E : exists cd, normalize net_odd [] (shapeA (url acme)) = Ok cd /\
                         total (stats cd) = 5%Z /\
                         st_additions (stats cd) = 1%Z /\ st_deletions (stats cd) = 1%Z).
  { eexists. split; [vm_compute; reflexivity|]. repeat split. }
  destruct E as (cd & E & Ht & Ha & Hd).
  destruct (H _ _ _ _ E) as [Hsum _]. rewrite Ht, Ha, Hd in Hsum. discriminate.
Qed.

(** C1 (amended): every CommitDetail produced on the local-diff path
    satisfies [total = additions + deletions], [additions = sum of the
    files' additions] and [deletions = sum of the files' deletions]; a
    CommitDetail produced on the remote path carries the statistics of
    the commit-detail payload unchanged and its files reshaped, with
    their counts as they are. *)
Theorem additivity_by_path fetch now input cd :
  normalize fetch now input = Ok cd ->
  match in_repoUrl input with
  | None => additive cd
  | Some _ =>
      exists q resp d,
        fetch q = Ok resp /\ resp_json resp = Ok (CommitObject d) /\
        stats cd = gh_stats d /\ files cd = map reshape_file (gh_files d)
  end.
Proof.
  intros H. destruct (in_repoUrl input) as [u|] eqn:Hu.
  - destruct (normalize_repoUrl fetch now input Hu) as [(r & _ & _ & E)|[_ E]];
      rewrite E in H; [|discriminate].
    now apply route_remote_passthrough with (r := r).
  - rewrite (normalize_no_repoUrl fetch now input Hu) in H.
    now apply route_diff_additive in H.
Qed.

Lemma additivity_by_path_witness :
  (exists cd, normalize net_404 [] (shapeB sample_diff) = Ok cd /\ additive cd) /\
  (exists cd, normalize net_odd [] (shapeA (url acme)) = Ok cd /\
     exists q resp d,
       net_odd q = Ok resp /\ resp_json resp = Ok (CommitObject d) /\
       stats cd = gh_stats d /\ files cd = map reshape_file (gh_files d)).
Proof.
  split.
  - eexists. split; [vm_compute; reflexivity|].
    apply (additivity_by_path net_404 [] (shapeB sample_diff)). vm_compute; reflexivity.
  - eexists. split; [vm_compute; reflexivity|].
    apply (additivity_by_path net_odd [] (shapeA (url acme))). vm_compute; reflexivity.
Defined.

(** C2: the sample diff of the specification parses to one FileChange,
    [src/a.js] with 1 addition, 1 deletion, 2 changes and status
    [modified], and to the aggregate 1 / 1 / 2. *)
Theorem sample_diff_parses fetch now :
  exists cd,
    normalize fetch now (shapeB sample_diff) = Ok cd /\
    files cd = [{| filename := lit "src/a.js";
                   additions := 1; deletions := 1; changes := 2;
                   status := lit "modified";
                   patch := Some (sample_diff ++ [LF]) |}] /\
    stats cd = {| st_additions := 1; st_deletions := 1; total := 2 |}.
Proof.
  eexists. split.
  - rewrite normalize_no_repoUrl by reflexivity. reflexivity.
  - split; vm_compute; reflexivity.
Qed.

(** C3: a present [repoUrl] selects the remote path, whatever the other
    fields hold, [diffContent] included; an absent one selects the diff
    path, which accepts any text as [diffContent]. *)
Theorem repoUrl_selects_path fetch now input :
  match in_repoUrl input with
  | Some u =>
      normalize fetch now input = normalize fetch now (shapeA u) /\
      ((exists r, parseRepoUrl (Some input) = Ok (Repo r) /\
                  normalize fetch now input = route_remote fetch r)
       \/ normalize fetch now input = Throw (invalid_url u))
  | None =>
      parseRepoUrl (Some input)
      = Ok (Diff {| diffContent := in_diffContent input;
                    commitMessage := in_commitMessage input;
                    author := in_author input;
                    commitSha := in_commitSha input |}) /\
      forall text, in_diffContent input = Some text ->
        exists cd, normalize fetch now input = Ok cd /\
                   files cd = parse_lines (split_nl text) /\
                   forall fetch', normalize fetch' now input = Ok cd
  end.
Proof.
  destruct (in_repoUrl input) as [u|] eqn:Hu.
  - split.
    + unfold normalize, parseRepoUrl. now rewrite Hu.
    + destruct (normalize_repoUrl fetch now input Hu) as [(r & Hr & _ & E)|[_ E]].
      * left. now exists r.
      * now right.
  - split.
    + unfold parseRepoUrl. now rewrite Hu.
    + intros text Ht. rewrite (normalize_no_repoUrl fetch now input Hu).
      unfold route_diff. cbn [diffContent]. rewrite Ht.
      eexists. split; [reflexivity|]. split; [reflexivity|].
      intros fetch'. rewrite (normalize_no_repoUrl fetch' now input Hu).
      unfold route_diff. cbn [diffContent]. now rewrite Ht.
Qed.

Lemma repoUrl_selects_path_witness :
  normalize net_404 []
    {| in_repoUrl := Some (url acme); in_diffContent := Some sample_diff;
       in_commitMessage := None; in_author := None; in_commitSha := None |}
  = normalize net_404 [] (shapeA (url acme)) /\
  exists cd, normalize net_404 [] (shapeB (lit "this is no diff")) = Ok cd /\
             files cd = [].
Proof.
  split.
  - exact (proj1 (repoUrl_selects_path net_404 []
             {| in_repoUrl := Some (url acme); in_diffContent := Some sample_diff;
                in_commitMessage := None; in_author := None; in_commitSha := None |})).
  - destruct (proj2 (repoUrl_selects_path net_404 [] (shapeB (lit "this is no diff")))
                _ eq_refl) as (cd & E & Hf & _).
    exists cd. split; [exact E|]. rewrite Hf. reflexivity.
Defined.

(** C4: a response of the commit-list call or of the commit-detail call
    whose status is outside 200-299 makes the remote branch throw an
    error whose message is the stage prefix followed by the status and
    its reason text; no CommitDetail is returned. *)
Theorem non_success_status_fails fetch now r resp :
  (resp_status resp < 200 \/ 299 < resp_status resp)%N ->
  fetch (api_request (commitsUrl r)) = Ok resp
  \/ (exists resp1 body c,
        fetch (api_request (commitsUrl r)) = Ok resp1 /\ ok resp1 = true /\
        resp_json resp1 = Ok body /\ first_commit body = Some c /\
        fetch (api_request (detailUrl r (gc_sha c))) = Ok resp) ->
  routeStep fetch now (Some (Repo r))
  = Throw (Exn JsError (lit "Failed to fetch commit details: GitHub API error: "
                        ++ show_N (resp_status resp) ++ lit " " ++ resp_statusText resp)).
Proof.
  intros Hst H.
  assert (Hok : ok resp = false).
  { unfold ok. apply andb_false_iff. destruct Hst.
    - left. apply N.leb_gt. assumption.
    - right. apply N.leb_gt. assumption. }
  cbn [routeStep]. unfold route_remote.
  destruct H as [E|(resp1 & body & c & E1 & Hok1 & Hj & Hc & E2)].
  - rewrite E. cbn [bind]. unfold check_ok. rewrite Hok. reflexivity.
  - rewrite E1. cbn [bind]. unfold check_ok. rewrite Hok1. cbn [negb bind].
    rewrite Hj. cbn [bind]. rewrite Hc. cbn [latest_sha bind].
    rewrite E2. cbn [bind]. rewrite Hok. reflexivity.
Qed.

Lemma non_success_status_fails_witness :
  routeStep net_404 [] (Some (Repo acme))
  = Throw (Exn JsError
             (lit "Failed to fetch commit details: GitHub API error: 404 Not Found")) /\
  routeStep net_detail_404 [] (Some (Repo acme))
  = Throw (Exn JsError
             (lit "Failed to fetch commit details: GitHub API error: 404 Not Found")).
Proof.
  split.
  - apply (@non_success_status_fails net_404 [] acme not_found).
    + right. reflexivity.
    + left. reflexivity.
  - apply (@non_success_status_fails net_detail_404 [] acme not_found).
    + right. reflexivity.
    + right. eexists _, _, some_commit. repeat split.
Defined.

(** C5 (the behaviour of the code): when the commit-list call succeeds
    with an empty array, reading [sha] of [commits[0]] raises a
    [TypeError], which the [catch] clause rewraps; the message says
    nothing of an empty commit list. *)
Theorem empty_commit_list_error fetch now r resp :
  fetch (api_request (commitsUrl r)) = Ok resp ->
  ok resp = true ->
  resp_json resp = Ok (CommitArray []) ->
  routeStep fetch now (Some (Repo r))
  = Throw (Exn JsError
             (lit "Failed to fetch commit details: Cannot read properties of undefined (reading 'sha')")).
Proof.
  intros E Hok Hj. cbn [routeStep]. unfold route_remote.
  rewrite E. cbn [bind]. unfold check_ok. rewrite Hok. cbn [negb bind].
  rewrite Hj. reflexivity.
Qed.

Lemma empty_commit_list_error_witness :
  routeStep net_no_commits [] (Some (Repo acme))
  = Throw (Exn JsError
             (lit "Failed to fetch commit details: Cannot read properties of undefined (reading 'sha')")).
Proof.
  apply (empty_commit_list_error net_no_commits [] acme
           (resp := {| resp_status := 200; resp_statusText := lit "OK";
                       resp_json := Ok (CommitArray []) |}));
    reflexivity.
Defined.

Section ScannerFacts.

Lemma sections_skip pre rest :
  Forall (fun l => is_marker l = false) pre -> sections (pre ++ rest) = sections rest.
Proof.
  induction 1 as [|l pre Hl _ IH]; [reflexivity|].
  cbn [app sections]. now rewrite Hl.
Qed.

Lemma scan_line_patch st line :
  sc_patch (scan_line st line)
  = (if is_marker line then [] else sc_patch st) ++ line ++ [LF].
Proof.
  destruct (is_marker line) eqn:H.
  - now rewrite (scan_line_marker _ _ H).
  - now rewrite (scan_line_body _ _ H).
Qed.

Lemma unmatched_marker_filename m : exec diff_header m = None -> marker_filename m = [].
Proof. unfold marker_filename. now intros ->. Qed.

(** A marker without a file name hides its whole section. *)
Lemma parse_lines_unnamed m tail :
  is_marker m = true -> marker_filename m = [] ->
  parse_lines (m :: tail) = parse_lines tail.
Proof.
  intros Hm Hn. rewrite !parse_lines_sections. cbn [sections]. rewrite Hm.
  cbn [filter]. unfold emitted at 1. cbn [fst]. now rewrite Hn.
Qed.

End ScannerFacts.

(** C6: every line is appended to the patch of the section that is open,
    followed by a newline; the patch of an emitted FileChange is its
    marker line and the lines up to the next marker, each followed by a
    newline; the lines before the first marker change nothing in what
    is emitted. *)
Theorem patch_is_section_text fetch now input text cd :
  in_repoUrl input = None ->
  in_diffContent input = Some text ->
  normalize fetch now input = Ok cd ->
  (forall st line,
      sc_patch (scan_line st line)
      = (if is_marker line then [] else sc_patch st) ++ line ++ [LF]) /\
  map patch (files cd)
  = map (fun sec => Some (with_newlines (fst sec :: snd sec)))
        (filter emitted (sections (split_nl text))) /\
  (forall pre rest,
      split_nl text = pre ++ rest ->
      Forall (fun l => is_marker l = false) pre ->
      files cd = parse_lines rest).
Proof.
  intros Hu Ht H. rewrite (normalize_no_repoUrl fetch now input Hu) in H.
  unfold route_diff in H. cbn [diffContent] in H. rewrite Ht in H.
  injection H as <-. cbn [files].
  split; [exact scan_line_patch|]. split.
  - rewrite parse_lines_sections, map_map. reflexivity.
  - intros pre rest E Hpre.
    now rewrite E, !parse_lines_sections, (sections_skip _ Hpre).
Qed.

Lemma patch_is_section_text_witness :
  exists cd,
    normalize net_404 [] (shapeB untidy_diff) = Ok cd /\
    map patch (files cd)
    = [Some (lit "diff --git a/x.c b/x.c" ++ [LF] ++ lit "+int x;" ++ [LF])].
Proof.
  eexists. split; [reflexivity|].
  etransitivity.
  - apply (proj1 (proj2 (@patch_is_section_text net_404 [] (shapeB untidy_diff)
                           untidy_diff _ eq_refl eq_refl eq_refl))).
  - vm_compute. reflexivity.
Defined.

(** C7: a [repoUrl] in which the repository pattern finds no match makes
    normalisation throw an error whose message ends with that URL; no
    CommitDetail is produced. *)
Theorem unmatched_url_fails fetch now input u :
  in_repoUrl input = Some u ->
  exec repo_pattern u = None ->
  normalize fetch now input
  = Throw (Exn JsError (lit "Invalid GitHub URL format: " ++ u)).
Proof.
  intros Hu Hm. unfold normalize, parseRepoUrl.
  rewrite Hu, (extract_no_match _ Hm). reflexivity.
Qed.

Lemma unmatched_url_fails_witness :
  normalize net_404 [] (shapeA (lit "not-a-github-url"))
  = Throw (Exn JsError (lit "Invalid GitHub URL format: not-a-github-url")).
Proof.
  apply (@unmatched_url_fails net_404 [] (shapeA (lit "not-a-github-url"))
           (lit "not-a-github-url")); reflexivity.
Defined.

(** C8: [https://github.com/acme/widgets.git] and
    [https://github.com/acme/widgets] both give owner [acme] and repository
    [widgets]; so does every URL of these two forms for its owner and
    name; and whenever the repository segment of the match ends with
    [.git], the repository the loop keeps is the segment without it. *)
Theorem git_suffix_stripped :
  (forall input,
      in_repoUrl input = Some (lit "https://github.com/acme/widgets.git") ->
      parseRepoUrl (Some input)
      = Ok (Repo {| owner := lit "acme"; repo := lit "widgets";
                    url := lit "https://github.com/acme/widgets.git" |})) /\
  (forall input,
      in_repoUrl input = Some (lit "https://github.com/acme/widgets") ->
      parseRepoUrl (Some input)
      = Ok (Repo {| owner := lit "acme"; repo := lit "widgets";
                    url := lit "https://github.com/acme/widgets" |})) /\
  (forall o name,
      o <> [] -> forallb (accepts (NoneOf (lit "/"))) o = true ->
      name <> [] -> forallb (accepts (NoneOf (lit "/?#"))) name = true ->
      parseRepoUrl (Some (shapeA (lit "https://github.com/" ++ o ++ lit "/" ++ name
                                  ++ lit ".git")))
      = Ok (Repo {| owner := o; repo := name;
                    url := lit "https://github.com/" ++ o ++ lit "/" ++ name
                           ++ lit ".git" |}) /\
      (endsWith (lit ".git") name = false ->
       parseRepoUrl (Some (shapeA (lit "https://github.com/" ++ o ++ lit "/" ++ name)))
       = Ok (Repo {| owner := o; repo := name;
                     url := lit "https://github.com/" ++ o ++ lit "/" ++ name |}))) /\
  (forall input u whole o name,
      in_repoUrl input = Some u ->
      exec repo_pattern u = Some [whole; o; name ++ lit ".git"] ->
      extract_owner_repo patterns u = (o, name) /\
      (name <> [] ->
       parseRepoUrl (Some input) = Ok (Repo {| owner := o; repo := name; url := u |}))).
Proof.
  assert (General : forall input u whole o name,
      in_repoUrl input = Some u ->
      exec repo_pattern u = Some [whole; o; name ++ lit ".git"] ->
      extract_owner_repo patterns u = (o, name) /\
      (name <> [] ->
       parseRepoUrl (Some input) = Ok (Repo {| owner := o; repo := name; url := u |}))).
  { intros input u whole o name Hu Hm.
    destruct (exec_repo_shape _ Hm) as (w' & o' & r' & [= _ <- _] & Ho & _).
    assert (E : extract_owner_repo patterns u = (o, name)).
    { unfold patterns. cbn [extract_owner_repo]. rewrite Hm.
      cbn [group nth]. now rewrite strip_git_suffix. }
    split; [exact E|]. intros Hname.
    unfold parseRepoUrl. rewrite Hu, E.
    now rewrite (truthy_nonempty Ho), (truthy_nonempty Hname). }
  split; [|split; [|split]].
  - intros input Hu. unfold parseRepoUrl. rewrite Hu. vm_compute. reflexivity.
  - intros input Hu. unfold parseRepoUrl. rewrite Hu. vm_compute. reflexivity.
  - intros o name Ho Hoa Hn Hna. split.
    + apply General with (whole := lit "github.com/" ++ o ++ lit "/" ++ name ++ lit ".git");
        [reflexivity| |assumption].
      apply exec_https_url; try assumption.
      * destruct name; [congruence|discriminate].
      * rewrite forallb_app, Hna. reflexivity.
    + intros Hgit.
      unfold parseRepoUrl, patterns, shapeA. cbn [in_repoUrl extract_owner_repo].
      rewrite (exec_https_url Ho Hoa Hn Hna). cbn [group nth].
      unfold strip_git. rewrite Hgit.
      now rewrite (truthy_nonempty Ho), (truthy_nonempty Hn).
  - exact General.
Qed.

Lemma git_suffix_stripped_witness :
  parseRepoUrl (Some (shapeA (lit "https://github.com/" ++ lit "rocq" ++ lit "/"
                              ++ lit "stdlib" ++ lit ".git")))
  = Ok (Repo {| owner := lit "rocq"; repo := lit "stdlib";
                url := lit "https://github.com/" ++ lit "rocq" ++ lit "/"
                       ++ lit "stdlib" ++ lit ".git" |}) /\
  extract_owner_repo patterns (lit "https://github.com/rocq/stdlib.git?tab=readme")
  = (lit "rocq", lit "stdlib").
Proof.
  split.
  - apply (proj1 (proj2 (proj2 git_suffix_stripped)) (lit "rocq") (lit "stdlib"));
      (discriminate || reflexivity).
  - apply (proj2 (proj2 (proj2 git_suffix_stripped))
             (shapeA (lit "https://github.com/rocq/stdlib.git?tab=readme"))
             (lit "https://github.com/rocq/stdlib.git?tab=readme")
             (lit "github.com/rocq/stdlib.git") (lit "rocq") (lit "stdlib")).
    + reflexivity.
    + vm_compute. reflexivity.
Defined.

(** C9: a diff-only input without [commitSha], [author] and
    [commitMessage] gives a CommitDetail with sha [direct-diff], author
    [Unknown], message [Direct diff review] and an empty url. *)
Theorem bare_diff_defaults fetch now text :
  exists cd,
    normalize fetch now (shapeB text) = Ok cd /\
    cd_sha cd = lit "direct-diff" /\
    cd_author cd = lit "Unknown" /\
    cd_message cd = lit "Direct diff review" /\
    cd_url cd = [] /\
    cd_date cd = now /\
    files cd = parse_lines (split_nl text).
Proof.
  eexists. split.
  - rewrite normalize_no_repoUrl by reflexivity. reflexivity.
  - repeat split.
Qed.

(** C10: a line that starts with [diff --git] and that the header pattern
    does not match sets the current file name to the empty string; its
    section is not emitted and adds nothing to the totals, although the
    counters do count its [+] and [-] lines. *)
Theorem unnamed_section_dropped fetch now input text cd pre m tail st :
  in_repoUrl input = None ->
  in_diffContent input = Some text ->
  normalize fetch now input = Ok cd ->
  split_nl text = pre ++ m :: tail ->
  is_marker m = true ->
  exec diff_header m = None ->
  currentFile (scan_line st m) = Some [] /\
  files cd = parse_lines pre ++ parse_lines tail /\
  st_additions (stats cd)
  = (sum_Z (map additions (parse_lines pre)) + sum_Z (map additions (parse_lines tail)))%Z /\
  st_deletions (stats cd)
  = (sum_Z (map deletions (parse_lines pre)) + sum_Z (map deletions (parse_lines tail)))%Z /\
  sc_additions (scan (scan_line st m) (body_lines tail)) = count is_addition (body_lines tail) /\
  sc_deletions (scan (scan_line st m) (body_lines tail)) = count is_deletion (body_lines tail).
Proof.
  intros Hu Ht H Hsplit Hm Hx. pose proof (unmatched_marker_filename _ Hx) as Hn.
  rewrite (normalize_no_repoUrl fetch now input Hu) in H.
  unfold route_diff in H. cbn [diffContent] in H. rewrite Ht, Hsplit in H.
  injection H as <-. cbn [files stats st_additions st_deletions].
  assert (E : parse_lines (pre ++ m :: tail) = parse_lines pre ++ parse_lines tail).
  { rewrite parse_lines_app by (cbn [body_lines]; now rewrite Hm).
    now rewrite (parse_lines_unnamed m tail Hm Hn). }
  split; [|split; [|split; [|split; [|split]]]].
  - rewrite (scan_line_marker _ _ Hm). cbn [currentFile]. now rewrite Hn.
  - exact E.
  - rewrite E, !totalAdditions_sum, map_app. apply sum_Z_app.
  - rewrite E, !totalDeletions_sum, map_app. apply sum_Z_app.
  - rewrite (scan_body _ (body_lines_no_marker tail)), (scan_line_marker _ _ Hm). reflexivity.
  - rewrite (scan_body _ (body_lines_no_marker tail)), (scan_line_marker _ _ Hm). reflexivity.
Qed.

Lemma unnamed_section_dropped_witness :
  exists cd,
    normalize net_404 [] (shapeB untidy_diff) = Ok cd /\
    map filename (files cd) = [lit "x.c"] /\
    st_additions (stats cd) = 1%Z /\ st_deletions (stats cd) = 0%Z /\
    sc_additions (scan (scan_line scan_start bare_marker) [lit "+lost"; lit "-lost too"]) = 1%Z /\
    sc_deletions (scan (scan_line scan_start bare_marker) [lit "+lost"; lit "-lost too"]) = 1%Z.
Proof.
  eexists. split; [reflexivity|].
  destruct (@unnamed_section_dropped net_404 [] (shapeB untidy_diff) untidy_diff _
              [lit "From: someone"; lit "diff --git a/x.c b/x.c"; lit "+int x;"]
              bare_marker [lit "+lost"; lit "-lost too"] scan_start
              eq_refl eq_refl eq_refl eq_refl eq_refl eq_refl)
    as (_ & Ef & Ea & Ed & Hca & Hcd).
  split; [rewrite Ef; vm_compute; reflexivity|].
  split; [rewrite Ea; vm_compute; reflexivity|].
  split; [rewrite Ed; vm_compute; reflexivity|].
  split; [exact Hca|exact Hcd].
Defined.

(** * Further properties of the code *)

(** ** The diff branch *)

Section DiffBranch.

Lemma startsWith_self_app (p t : jsstring) : startsWith p (p ++ t) = true.
Proof.
  induction p as [|c p IH]; cbn [app startsWith]; [reflexivity|].
  now rewrite N.eqb_refl.
Qed.

Lemma startsWith_split (p s : jsstring) :
  startsWith p s = true -> exists t, s = p ++ t.
Proof.
  revert s; induction p as [|c p IH]; intros s H.
  - now exists s.
  - destruct s as [|d s]; [discriminate|]. cbn [startsWith] in H.
    apply andb_true_iff in H as [Hc Hs]. apply N.eqb_eq in Hc. subst d.
    destruct (IH _ Hs) as [t ->]. now exists t.
Qed.

Lemma startsWith_longer (p s t : jsstring) :
  startsWith p s = true -> startsWith p (s ++ t) = true.
Proof.
  intros H. destruct (startsWith_split _ _ H) as [u ->].
  rewrite <- app_assoc. apply startsWith_self_app.
Qed.

(** [split] cuts at every newline. *)
Lemma split_nl_app (a b : jsstring) :
  split_nl (a ++ LF :: b) = split_nl a ++ split_nl b.
Proof.
  induction a as [|c a IH]; cbn [app split_nl].
  - now rewrite N.eqb_refl.
  - rewrite IH. destruct (N.eqb c LF); [reflexivity|].
    destruct (split_nl a) as [|l ls] eqn:E; [|reflexivity].
    destruct a as [|c' a']; cbn [split_nl] in E; [discriminate|].
    destruct (N.eqb c' LF); [discriminate|]. destruct (split_nl a'); discriminate.
Qed.

(** A text that starts with newline-free text has it at the head of its first line. *)
Lemma split_nl_prefix (p t : jsstring) :
  ~ In LF p ->
  exists l ls, split_nl t = l :: ls /\ split_nl (p ++ t) = (p ++ l) :: ls.
Proof.
  intros Hp. induction p as [|c p IH]; cbn [app].
  - destruct (split_nl t) as [|l ls] eqn:E.
    + destruct t as [|c' t']; cbn [split_nl] in E; [discriminate|].
      destruct (N.eqb c' LF); [discriminate|]. destruct (split_nl t'); discriminate.
    + now exists l, ls.
  - destruct IH as (l & ls & E & E'); [intros Hin; apply Hp; now right|].
    exists l, ls. split; [assumption|]. cbn [split_nl].
    destruct (N.eqb_spec c LF) as [->|_]; [exfalso; apply Hp; now left|].
    now rewrite E'.
Qed.

(** A text that starts with [diff --git] has a marker as its first line. *)
Lemma first_line_marker (t : jsstring) :
  startsWith (lit "diff --git") t = true -> body_lines (split_nl t) = [].
Proof.
  intros H. destruct (startsWith_split _ _ H) as [u ->].
  destruct (split_nl_prefix (lit "diff --git") u) as (l & ls & _ & ->).
  - vm_compute. intuition discriminate.
  - cbn [body_lines]. unfold is_marker. now rewrite startsWith_self_app.
Qed.

Lemma sections_marker sec ls :
  In sec (sections ls) -> is_marker (fst sec) = true.
Proof.
  induction ls as [|l ls IH]; cbn [sections]; [contradiction|].
  destruct (is_marker l) eqn:Hl; [|exact IH].
  intros [<-|Hin]; [exact Hl|now apply IH].
Qed.

(** The captures of the header pattern: two texts without line
    terminator, the second one not empty. *)
Lemma match_here_diff_header s caps rest :
  match_here diff_header s = Some (caps, rest) ->
  exists p q, caps = [p; q] /\ q <> [] /\ forallb (accepts Dot) q = true.
Proof.
  unfold diff_header. cbn [match_here].
  destruct (strip_prefix _ s) as [s1|]; [|discriminate].
  destruct (plus _ _ s1) as [[p [caps1 rest1]]|] eqn:E1; [|discriminate].
  intros [= <- <-].
  destruct (plus_sound _ _ _ E1) as (s2 & _ & Hk & _ & _).
  destruct (strip_prefix _ s2) as [s3|]; [|discriminate].
  destruct (plus _ _ s3) as [[q [caps2 rest2]]|] eqn:E2; [|discriminate].
  injection Hk as <- <-.
  destruct (plus_sound _ _ _ E2) as (s4 & _ & Hk2 & Hq & Hne).
  injection Hk2 as <- _.
  now exists p, q.
Qed.

Lemma marker_filename_dot m : forallb (accepts Dot) (marker_filename m) = true.
Proof.
  unfold marker_filename.
  destruct (exec diff_header m) as [mm|] eqn:E; [|reflexivity].
  revert E. induction m as [|c m IH]; cbn [exec].
  - destruct (match_here diff_header []) as [[caps rest]|] eqn:Eh; [|discriminate].
    intros [= <-]. destruct (match_here_diff_header _ Eh) as (p & q & -> & _ & Hq).
    exact Hq.
  - destruct (match_here diff_header (c :: m)) as [[caps rest]|] eqn:Eh; [|exact IH].
    intros [= <-]. destruct (match_here_diff_header _ Eh) as (p & q & -> & _ & Hq).
    exact Hq.
Qed.

Lemma section_file_well_formed sec :
  is_marker (fst sec) = true -> emitted sec = true ->
  well_formed_file (section_file sec).
Proof.
  intros Hm He. unfold well_formed_file, section_file.
  cbn [status changes additions deletions filename patch].
  repeat split.
  - unfold count. lia.
  - unfold count. lia.
  - unfold emitted in He. now destruct (marker_filename (fst sec)).
  - apply marker_filename_dot.
  - eexists. split; [reflexivity|].
    rewrite with_newlines_cons. now apply startsWith_longer.
Qed.

Variable fetch : Network.
Variable now : jsstring.

(** What the diff branch returns, in terms of the scanner. *)
Lemma normalize_diff input text cd :
  in_repoUrl input = None ->
  in_diffContent input = Some text ->
  normalize fetch now input = Ok cd ->
  files cd = parse_lines (split_nl text) /\
  st_additions (stats cd) = sum_Z (map additions (files cd)) /\
  st_deletions (stats cd) = sum_Z (map deletions (files cd)) /\
  total (stats cd) = (st_additions (stats cd) + st_deletions (stats cd))%Z.
Proof.
  intros Hu Ht H. rewrite (normalize_no_repoUrl fetch now input Hu) in H.
  unfold route_diff in H. cbn [diffContent] in H. rewrite Ht in H.
  injection H as <-. cbn [files stats st_additions st_deletions total].
  now rewrite totalAdditions_sum, totalDeletions_sum.
Qed.

Lemma normalize_diff_total input text :
  in_repoUrl input = None ->
  in_diffContent input = Some text ->
  exists cd, normalize fetch now input = Ok cd.
Proof.
  intros Hu Ht. rewrite (normalize_no_repoUrl fetch now input Hu).
  unfold route_diff. cbn [diffContent]. rewrite Ht. now eexists.
Qed.

End DiffBranch.

(** X1: the files of a parsed diff are its sections with a file name, in
    order of appearance: the name is the second capture of the header
    pattern on the marker line, the counts are the numbers of [+] lines
    (not [+++]) and [-] lines (not [---]) between the marker and the
    next one, and the patch is the text of the section. *)
Theorem parsed_files_are_sections fetch now input text cd :
  in_repoUrl input = None ->
  in_diffContent input = Some text ->
  normalize fetch now input = Ok cd ->
  files cd = map section_file (filter emitted (sections (split_nl text))).
Proof.
  intros Hu Ht H.
  destruct (normalize_diff fetch now input Hu Ht H) as (-> & _).
  apply parse_lines_sections.
Qed.

Lemma parsed_files_are_sections_witness :
  exists cd,
    normalize net_404 [] (shapeB untidy_diff) = Ok cd /\
    files cd = [section_file (lit "diff --git a/x.c b/x.c", [lit "+int x;"])].
Proof.
  eexists. split; [reflexivity|].
  etransitivity.
  - apply (@parsed_files_are_sections net_404 [] (shapeB untidy_diff) untidy_diff _
             eq_refl eq_refl eq_refl).
  - vm_compute. reflexivity.
Defined.

(** X2: a text without any line that starts with [diff --git] parses to
    no file and to the statistics 0 / 0 / 0. *)
Theorem no_marker_no_file fetch now input text cd :
  in_repoUrl input = None ->
  in_diffContent input = Some text ->
  Forall (fun l => is_marker l = false) (split_nl text) ->
  normalize fetch now input = Ok cd ->
  files cd = [] /\
  stats cd = {| st_additions := 0; st_deletions := 0; total := 0 |}.
Proof.
  intros Hu Ht Hno H.
  destruct (normalize_diff fetch now input Hu Ht H) as (Hf & Ha & Hd & Htot).
  assert (E : files cd = []).
  { rewrite Hf, parse_lines_sections.
    rewrite <- (app_nil_r (split_nl text)), (sections_skip _ Hno). reflexivity. }
  split; [exact E|].
  rewrite E in Ha, Hd. cbn in Ha, Hd. rewrite Ha, Hd in Htot.
  destruct (stats cd) as [a d t]. cbn in *. now subst.
Qed.

Lemma no_marker_no_file_witness :
  exists cd,
    normalize net_404 [] (shapeB (lit "+just a line")) = Ok cd /\
    files cd = [] /\
    stats cd = {| st_additions := 0; st_deletions := 0; total := 0 |}.
Proof.
  eexists. split; [reflexivity|].
  apply (@no_marker_no_file net_404 [] (shapeB (lit "+just a line"))
           (lit "+just a line")); try reflexivity.
  repeat constructor.
Defined.

(** X3: every FileChange of a parsed diff has status [modified], changes
    = additions + deletions, counts that are not negative, a non-empty
    file name without line terminator, and a patch that starts with
    [diff --git]; the statistics are not negative either. *)
Theorem parsed_files_well_formed fetch now input text cd :
  in_repoUrl input = None ->
  in_diffContent input = Some text ->
  normalize fetch now input = Ok cd ->
  Forall well_formed_file (files cd) /\
  (0 <= st_additions (stats cd))%Z /\ (0 <= st_deletions (stats cd))%Z.
Proof.
  intros Hu Ht H.
  destruct (normalize_diff fetch now input Hu Ht H) as (Hf & Ha & Hd & _).
  assert (Hwf : Forall well_formed_file (files cd)).
  { rewrite Hf, parse_lines_sections. apply Forall_forall. intros f Hin.
    apply in_map_iff in Hin as (sec & <- & Hsec).
    apply filter_In in Hsec as [Hsec He].
    apply section_file_well_formed; [|exact He].
    now apply sections_marker with (ls := split_nl text). }
  split; [exact Hwf|]. rewrite Ha, Hd. clear - Hwf.
  induction Hwf as [|f fs Hfwf _ IH]; cbn; [lia|].
  destruct Hfwf as (_ & _ & Hadd & Hdel & _). unfold sum_Z in IH. lia.
Qed.

Lemma parsed_files_well_formed_witness :
  exists cd,
    normalize net_404 [] (shapeB sample_diff) = Ok cd /\
    Forall well_formed_file (files cd).
Proof.
  eexists. split; [reflexivity|].
  apply (@parsed_files_well_formed net_404 [] (shapeB sample_diff) sample_diff _
           eq_refl eq_refl eq_refl).
Defined.

(** X4: putting a diff that starts with [diff --git] on a new line after
    another text gives the files of the first followed by the files of
    the second, each with its own counts, and the statistics add up. *)
Theorem concatenated_diffs fetch now t1 t2 cd1 cd2 :
  startsWith (lit "diff --git") t2 = true ->
  normalize fetch now (shapeB t1) = Ok cd1 ->
  normalize fetch now (shapeB t2) = Ok cd2 ->
  exists cd,
    normalize fetch now (shapeB (t1 ++ LF :: t2)) = Ok cd /\
    files cd = files cd1 ++ files cd2 /\
    st_additions (stats cd) = (st_additions (stats cd1) + st_additions (stats cd2))%Z /\
    st_deletions (stats cd) = (st_deletions (stats cd1) + st_deletions (stats cd2))%Z /\
    total (stats cd) = (total (stats cd1) + total (stats cd2))%Z.
Proof.
  intros Hm H1 H2.
  destruct (normalize_diff_total fetch now (shapeB (t1 ++ LF :: t2)) eq_refl eq_refl)
    as [cd H].
  destruct (normalize_diff fetch now (shapeB t1) eq_refl eq_refl H1) as (F1 & A1 & D1 & T1).
  destruct (normalize_diff fetch now (shapeB t2) eq_refl eq_refl H2) as (F2 & A2 & D2 & T2).
  destruct (normalize_diff fetch now (shapeB (t1 ++ LF :: t2)) eq_refl eq_refl H)
    as (F & A & D & T).
  assert (E : files cd = files cd1 ++ files cd2).
  { rewrite F, F1, F2, split_nl_app. apply parse_lines_app. now apply first_line_marker. }
  exists cd. split; [exact H|]. split; [exact E|].
  rewrite E, map_app, sum_Z_app in A, D. rewrite <- A1, <- A2 in A. rewrite <- D1, <- D2 in D.
  split; [exact A|]. split; [exact D|]. lia.
Qed.

Lemma concatenated_diffs_witness :
  exists cd,
    normalize net_404 [] (shapeB (two_diffs_a ++ LF :: two_diffs_b)) = Ok cd /\
    map (fun f => (filename f, additions f, deletions f)) (files cd)
    = [(lit "one.c", 2%Z, 0%Z); (lit "two.c", 0%Z, 1%Z)] /\
    total (stats cd) = 3%Z.
Proof.
  destruct (@concatenated_diffs net_404 [] two_diffs_a two_diffs_b _ _
              eq_refl eq_refl eq_refl) as (cd & H & F & _ & _ & T).
  exists cd. split; [exact H|]. split.
  - rewrite F. vm_compute. reflexivity.
  - rewrite T. vm_compute. reflexivity.
Defined.

Section HeaderLine.

Import Regex.

(** A greedy group finds nothing when the rest of the pattern needs a
    code unit that does not occur where the group could stop. *)
Lemma plus_blocked {A} C (k : jsstring -> option A) x h rest :
  (forall s, head_is_not x s -> k s = None) ->
  forallb (fun c => negb (N.eqb c x)) h = true ->
  head_is_not x rest ->
  plus C k rest = None ->
  plus C k (h ++ rest) = None.
Proof.
  intros Hk Hh Hrest Hp. induction h as [|c h IH]; [exact Hp|].
  cbn [forallb] in Hh. apply andb_true_iff in Hh as [Hc Hh'].
  cbn [app plus]. destruct (accepts C c); [|reflexivity].
  rewrite (IH Hh'). rewrite Hk; [reflexivity|].
  destruct h as [|c' h']; [exact Hrest|].
  cbn [forallb] in Hh'. apply andb_true_iff in Hh' as [Hc' _].
  cbn. now apply negb_true_iff.
Qed.

Lemma lit_needs_head l (re : regex) x s :
  firstn 1 l = [x] -> head_is_not x s -> match_here (Lit l :: re) s = None.
Proof.
  intros Hl Hs. cbn [match_here].
  destruct l as [|c0 l]; [discriminate|]. injection Hl as ->.
  destruct s as [|c s]; [reflexivity|]. cbn in Hs. cbn [strip_prefix].
  rewrite N.eqb_sym in Hs. now rewrite Hs.
Qed.

Lemma plus_stops {A} C (k : jsstring -> option A) tail :
  match tail with [] => True | c :: _ => accepts C c = false end ->
  plus C k tail = None.
Proof.
  destruct tail as [|c t]; [reflexivity|]. intros H. cbn [plus]. now rewrite H.
Qed.

(** The header pattern on a line of the usual form when the new path
    holds no space: the old path is all up to the last [ b/]. *)
Lemma match_here_header_line P Q tail :
  P <> [] -> forallb (accepts Dot) P = true ->
  Q <> [] -> forallb (accepts Dot) Q = true ->
  forallb (fun c => negb (N.eqb c 32)) Q = true ->
  match tail with [] => True | c :: _ => accepts Dot c = false end ->
  match_here diff_header (lit "diff --git a/" ++ P ++ lit " b/" ++ Q ++ tail)
  = Some ([P; Q], tail).
Proof.
  intros HP HPd HQ HQd HQs Htail.
  assert (Hk : match_here [Lit (lit " b/"); Group Dot] (lit " b/" ++ Q ++ tail)
               = Some ([Q], tail)).
  { rewrite match_here_Lit.
    apply match_here_Group; [assumption|assumption| |reflexivity].
    now apply plus_stops. }
  unfold diff_header. rewrite match_here_Lit.
  apply match_here_Group; [assumption|assumption| |exact Hk].
  change (lit " b/" ++ Q ++ tail) with (32%N :: (lit "b/" ++ Q) ++ tail).
  cbn [plus]. change (accepts Dot 32%N) with true. cbv iota.
  assert (Htail' : head_is_not 32%N tail).
  { destruct tail as [|c t]; [exact I|]. cbn in *.
    destruct (N.eqb_spec c 32) as [->|]; [discriminate|reflexivity]. }
  rewrite (@plus_blocked _ Dot _ 32%N (lit "b/" ++ Q) tail).
  - rewrite (@lit_needs_head (lit " b/") [Group Dot] 32%N); reflexivity.
  - intros s Hs. now apply lit_needs_head with (x := 32%N).
  - rewrite forallb_app. apply andb_true_iff. split; [reflexivity|exact HQs].
  - exact Htail'.
  - now apply plus_stops.
Qed.

End HeaderLine.

(** X5: on a marker line [diff --git a/<old> b/<new>] whose new path holds
    no space, the file name is [<new>], also when the line goes on with
    a carriage return or another line terminator; the old path may hold
    spaces. *)
Theorem marker_filename_is_new_path P Q tail :
  P <> [] -> forallb (accepts Dot) P = true ->
  Q <> [] -> forallb (accepts Dot) Q = true ->
  forallb (fun c => negb (N.eqb c 32)) Q = true ->
  match tail with [] => True | c :: _ => accepts Dot c = false end ->
  is_marker (lit "diff --git a/" ++ P ++ lit " b/" ++ Q ++ tail) = true /\
  marker_filename (lit "diff --git a/" ++ P ++ lit " b/" ++ Q ++ tail) = Q.
Proof.
  intros HP HPd HQ HQd HQs Htail. split.
  - unfold is_marker.
    change (lit "diff --git a/") with (lit "diff --git" ++ lit " a/").
    rewrite <- app_assoc. apply startsWith_self_app.
  - unfold marker_filename.
    now rewrite (exec_hit _ _ (match_here_header_line tail HP HPd HQ HQd HQs Htail)).
Qed.

Lemma marker_filename_is_new_path_witness :
  marker_filename (lit "diff --git a/" ++ lit "my file.c" ++ lit " b/" ++ lit "file.c" ++ [13%N])
  = lit "file.c".
Proof.
  apply (@marker_filename_is_new_path (lit "my file.c") (lit "file.c") [13%N]);
    (discriminate || reflexivity).
Defined.

(** ** URL extraction, in the step and in the tool *)

Section UrlFacts.

Import Regex GitHubTool.

Lemma match_here_repo_sound s caps rest :
  match_here repo_pattern s = Some (caps, rest) ->
  exists o r, caps = [o; r] /\
    o <> [] /\ free_of (lit "/") o /\ r <> [] /\ free_of (lit "/?#") r.
Proof.
  unfold repo_pattern, free_of. cbn [match_here].
  destruct (strip_prefix _ s) as [s1|]; [|discriminate].
  destruct (plus _ _ s1) as [[o [caps1 rest1]]|] eqn:E1; [|discriminate].
  intros [= <- <-].
  destruct (plus_sound _ _ _ E1) as (s2 & _ & Hk & Hoa & Ho).
  destruct (strip_prefix _ s2) as [s3|]; [|discriminate].
  destruct (plus _ _ s3) as [[r [caps2 rest2]]|] eqn:E2; [|discriminate].
  injection Hk as <- <-.
  destruct (plus_sound _ _ _ E2) as (s4 & _ & Hk2 & Hra & Hr).
  injection Hk2 as <- _.
  now exists o, r.
Qed.

Lemma exec_repo_sound u m :
  exec repo_pattern u = Some m ->
  exists w o r, m = [w; o; r] /\
    o <> [] /\ free_of (lit "/") o /\ r <> [] /\ free_of (lit "/?#") r.
Proof.
  induction u as [|c u IH]; cbn [exec].
  - destruct (match_here repo_pattern []) as [[caps rest]|] eqn:E; [|discriminate].
    intros [= <-]. destruct (match_here_repo_sound _ E) as (o & r & -> & H).
    do 3 eexists. split; [reflexivity|exact H].
  - destruct (match_here repo_pattern (c :: u)) as [[caps rest]|] eqn:E; [|exact IH].
    intros [= <-]. destruct (match_here_repo_sound _ E) as (o & r & -> & H).
    do 3 eexists. split; [reflexivity|exact H].
Qed.

Lemma forallb_firstn {A} (f : A -> bool) n (s : list A) :
  forallb f s = true -> forallb f (firstn n s) = true.
Proof.
  revert n; induction s as [|c s IH]; intros [|n] H; cbn in *; try reflexivity.
  apply andb_true_iff in H as [Hc Hs]. now rewrite Hc, IH.
Qed.

Lemma strip_git_free cs r : free_of cs r -> free_of cs (strip_git r).
Proof.
  unfold free_of, strip_git, slice_0_neg. intros H.
  destruct (endsWith _ r); [now apply forallb_firstn|exact H].
Qed.

(** The loop over the patterns never gets past the first one. *)
Lemma extract_first_pattern u :
  extract_owner_repo patterns u =
  match exec repo_pattern u with
  | Some m => (group 1 m, strip_git (group 2 m))
  | None => ([], [])
  end.
Proof.
  destruct (exec repo_pattern u) as [m|] eqn:E.
  - unfold patterns. cbn [extract_owner_repo]. now rewrite E.
  - now apply extract_no_match.
Qed.

Lemma first_match_first_pattern u :
  first_match patterns u =
  match exec repo_pattern u with
  | Some m => Some {| rn_owner := group 1 m; rn_repo := strip_git (group 2 m) |}
  | None => None
  end.
Proof.
  unfold patterns. cbn [first_match].
  destruct (exec repo_pattern u) as [m|] eqn:E; [reflexivity|].
  now rewrite repo_git_pattern_extends, exec_app_none.
Qed.

Lemma match_here_repo_tail o name tail :
  o <> [] -> free_of (lit "/") o ->
  name <> [] -> free_of (lit "/?#") name ->
  match tail with [] => True | c :: _ => accepts (NoneOf (lit "/?#")) c = false end ->
  match_here repo_pattern (lit "github.com/" ++ o ++ lit "/" ++ name ++ tail)
  = Some ([o; name], tail).
Proof.
  intros Ho Hoa Hn Hna Htail.
  unfold repo_pattern. rewrite match_here_Lit.
  apply match_here_Group; [assumption|assumption|reflexivity|].
  rewrite match_here_Lit.
  apply match_here_Group; [assumption|assumption| |reflexivity].
  destruct tail as [|c t]; [reflexivity|]. cbn [plus]. now rewrite Htail.
Qed.

Lemma skip_free_of_g pre :
  free_of (lit "g") pre ->
  forallb (fun c => negb (startsWith (firstn 1 (lit "github.com/")) [c])) pre = true.
Proof.
  unfold free_of. induction pre as [|c pre IH]; [reflexivity|].
  cbn [forallb]. intros H. apply andb_true_iff in H as [Hc Hpre].
  rewrite (IH Hpre), andb_true_r.
  change (firstn 1 (lit "github.com/")) with [103%N]. cbn [startsWith].
  cbn in Hc. rewrite orb_false_r in Hc. rewrite andb_true_r, N.eqb_sym. exact Hc.
Qed.

Lemma exec_repo_url pre o name tail :
  free_of (lit "g") pre ->
  o <> [] -> free_of (lit "/") o ->
  name <> [] -> free_of (lit "/?#") name ->
  match tail with [] => True | c :: _ => accepts (NoneOf (lit "/?#")) c = false end ->
  exists whole,
    exec repo_pattern (pre ++ lit "github.com/" ++ o ++ lit "/" ++ name ++ tail)
    = Some [whole; o; name].
Proof.
  intros Hpre Ho Hoa Hn Hna Htail.
  unfold repo_pattern at 1. rewrite exec_skip_prefix by now apply skip_free_of_g.
  fold repo_pattern.
  rewrite (exec_hit _ _ (@match_here_repo_tail o name tail Ho Hoa Hn Hna Htail)).
  now eexists.
Qed.

End UrlFacts.

(** X6: a result of the URL branch of [parseRepoUrl] echoes the URL,
    has a non-empty owner without slash and a non-empty repository name
    without slash, question mark or hash. *)
Theorem parsed_url_well_formed input r :
  parseRepoUrl (Some input) = Ok (Repo r) ->
  in_repoUrl input = Some (url r) /\
  owner r <> [] /\ free_of (lit "/") (owner r) /\
  repo r <> [] /\ free_of (lit "/?#") (repo r).
Proof.
  unfold parseRepoUrl. destruct (in_repoUrl input) as [u|]; [|discriminate].
  rewrite extract_first_pattern.
  destruct (exec repo_pattern u) as [m|] eqn:E; [|discriminate].
  destruct (exec_repo_sound _ E) as (w & o & seg & -> & Ho & Hoa & _ & Hsa).
  cbn [group nth].
  destruct (truthy o) eqn:To; [|discriminate].
  destruct (truthy (strip_git seg)) eqn:Ts; [|discriminate].
  cbn [negb orb]. intros [= <-]. cbn [url owner repo].
  repeat split; try assumption.
  - now destruct (strip_git seg).
  - now apply strip_git_free.
Qed.

Lemma parsed_url_well_formed_witness :
  free_of (lit "/?#") (lit "widgets") /\ free_of (lit "/") (lit "acme").
Proof.
  destruct (@parsed_url_well_formed
              (shapeA (lit "https://github.com/acme/widgets/tree/main?x=1#top"))
              {| owner := lit "acme"; repo := lit "widgets";
                 url := lit "https://github.com/acme/widgets/tree/main?x=1#top" |}
              eq_refl) as (_ & _ & Ho & _ & Hr).
  split; [exact Hr|exact Ho].
Defined.

(** X7: the second pattern of the list never decides anything: the step
    and the tool give what they give with the first pattern alone. *)
Theorem second_pattern_never_decides u :
  extract_owner_repo patterns u = extract_owner_repo [repo_pattern] u /\
  GitHubTool.first_match patterns u = GitHubTool.first_match [repo_pattern] u.
Proof.
  rewrite extract_first_pattern, first_match_first_pattern.
  cbn [extract_owner_repo GitHubTool.first_match].
  destruct (exec repo_pattern u); split; reflexivity.
Qed.

(** X8: in a URL, what precedes [github.com/] (when it holds no [g]) and
    what follows the repository segment from the first slash, question
    mark or hash on are ignored: owner and repository are the two
    segments, the latter without a final [.git]. *)
Theorem url_surroundings_ignored pre o name tail :
  free_of (lit "g") pre ->
  o <> [] -> free_of (lit "/") o ->
  name <> [] -> free_of (lit "/?#") name ->
  match tail with [] => True | c :: _ => accepts (NoneOf (lit "/?#")) c = false end ->
  extract_owner_repo patterns (pre ++ lit "github.com/" ++ o ++ lit "/" ++ name ++ tail)
  = (o, strip_git name) /\
  (strip_git name <> [] ->
   parseRepoUrl (Some (shapeA (pre ++ lit "github.com/" ++ o ++ lit "/" ++ name ++ tail)))
   = Ok (Repo {| owner := o; repo := strip_git name;
                 url := pre ++ lit "github.com/" ++ o ++ lit "/" ++ name ++ tail |})).
Proof.
  intros Hpre Ho Hoa Hn Hna Htail.
  destruct (@exec_repo_url pre o name tail Hpre Ho Hoa Hn Hna Htail) as [whole E].
  assert (Ex : extract_owner_repo patterns
                 (pre ++ lit "github.com/" ++ o ++ lit "/" ++ name ++ tail)
               = (o, strip_git name)).
  { rewrite extract_first_pattern, E. reflexivity. }
  split; [exact Ex|]. intros Hs.
  unfold parseRepoUrl, shapeA. cbn [in_repoUrl]. rewrite Ex.
  now rewrite (truthy_nonempty Ho), (truthy_nonempty Hs).
Qed.

Lemma url_surroundings_ignored_witness :
  parseRepoUrl (Some (shapeA (lit "http://www." ++ lit "github.com/" ++ lit "acme" ++ lit "/"
                              ++ lit "widgets.git" ++ lit "/pull/7?diff=split")))
  = Ok (Repo {| owner := lit "acme"; repo := lit "widgets";
                url := lit "http://www." ++ lit "github.com/" ++ lit "acme" ++ lit "/"
                       ++ lit "widgets.git" ++ lit "/pull/7?diff=split" |}).
Proof.
  apply (proj2 (@url_surroundings_ignored (lit "http://www.") (lit "acme")
                  (lit "widgets.git") (lit "/pull/7?diff=split")
                  eq_refl ltac:(discriminate) eq_refl ltac:(discriminate) eq_refl eq_refl)).
  discriminate.
Defined.

(** X9: [parseRepoUrlTool] throws exactly when the repository pattern
    finds no match, and then the step throws the same error.  When the
    tool returns a non-empty repository the step returns the same owner
    and repository; the tool returns an empty repository where the
    segment is [.git] alone, a URL that the step rejects. *)
Theorem tool_and_step_agree input u :
  in_repoUrl input = Some u ->
  match GitHubTool.parseRepoUrlTool u with
  | Ok rn =>
      exec repo_pattern u <> None /\
      GitHubTool.rn_owner rn <> [] /\
      parseRepoUrl (Some input)
      = if truthy (GitHubTool.rn_repo rn)
        then Ok (Repo {| owner := GitHubTool.rn_owner rn;
                         repo := GitHubTool.rn_repo rn; url := u |})
        else Throw (invalid_url u)
  | Throw e =>
      exec repo_pattern u = None /\
      e = invalid_url u /\
      parseRepoUrl (Some input) = Throw (invalid_url u)
  end.
Proof.
  intros Hu. unfold GitHubTool.parseRepoUrlTool, parseRepoUrl.
  rewrite Hu, first_match_first_pattern, extract_first_pattern.
  destruct (exec repo_pattern u) as [m|] eqn:E.
  - destruct (exec_repo_sound _ E) as (w & o & seg & -> & Ho & _).
    cbn [group nth GitHubTool.rn_owner GitHubTool.rn_repo].
    split; [discriminate|]. split; [exact Ho|].
    rewrite (truthy_nonempty Ho). cbn [negb orb].
    now destruct (truthy (strip_git seg)).
  - repeat split.
Qed.

Lemma tool_and_step_agree_witness :
  GitHubTool.parseRepoUrlTool (lit "https://github.com/acme/.git")
  = Ok {| GitHubTool.rn_owner := lit "acme"; GitHubTool.rn_repo := [] |} /\
  parseRepoUrl (Some (shapeA (lit "https://github.com/acme/.git")))
  = Throw (invalid_url (lit "https://github.com/acme/.git")).
Proof.
  pose proof (@tool_and_step_agree (shapeA (lit "https://github.com/acme/.git"))
                (lit "https://github.com/acme/.git") eq_refl) as H.
  split; [reflexivity|].
  vm_compute in H. vm_compute. exact (proj2 (proj2 H)).
Defined.

(** ** The remote branch *)

Section RemoteBranch.

Variable fetch : Network.

Lemma route_remote_throws r e :
  route_remote fetch r = Throw e -> exists cause, e = fetch_failed cause.
Proof.
  unfold route_remote, try_catch.
  match goal with |- context [match ?m with Ok _ => _ | Throw _ => _ end] =>
    destruct m as [cd|cause] end.
  - discriminate.
  - intros [= <-]. now exists cause.
Qed.

Lemma commitsUrl_prefix r :
  startsWith (lit "https://api.github.com/repos/" ++ owner r ++ lit "/" ++ repo r
              ++ lit "/commits") (commitsUrl r) = true.
Proof.
  unfold commitsUrl.
  change (lit "/commits?per_page=5") with (lit "/commits" ++ lit "?per_page=5").
  replace (lit "https://api.github.com/repos/" ++ owner r ++ lit "/" ++ repo r
           ++ lit "/commits" ++ lit "?per_page=5")
    with ((lit "https://api.github.com/repos/" ++ owner r ++ lit "/" ++ repo r
           ++ lit "/commits") ++ lit "?per_page=5")
    by (now rewrite <- !app_assoc).
  apply startsWith_self_app.
Qed.

Lemma detailUrl_prefix r sha :
  startsWith (lit "https://api.github.com/repos/" ++ owner r ++ lit "/" ++ repo r
              ++ lit "/commits") (detailUrl r sha) = true.
Proof.
  unfold detailUrl.
  change (lit "/commits/") with (lit "/commits" ++ lit "/").
  replace (lit "https://api.github.com/repos/" ++ owner r ++ lit "/" ++ repo r
           ++ (lit "/commits" ++ lit "/") ++ sha)
    with ((lit "https://api.github.com/repos/" ++ owner r ++ lit "/" ++ repo r
           ++ lit "/commits") ++ lit "/" ++ sha)
    by (now rewrite <- !app_assoc).
  apply startsWith_self_app.
Qed.

(** The remote branch sees the network through two requests only. *)
Lemma route_remote_ext (fetch' : Network) r :
  fetch' (api_request (commitsUrl r)) = fetch (api_request (commitsUrl r)) ->
  (forall sha, fetch' (api_request (detailUrl r sha)) = fetch (api_request (detailUrl r sha))) ->
  route_remote fetch' r = route_remote fetch r.
Proof.
  intros H1 H2. unfold route_remote. rewrite H1.
  destruct (fetch (api_request (commitsUrl r))) as [resp1|]; [|reflexivity].
  cbn [bind]. destruct (check_ok resp1) as [resp1'|]; [|reflexivity].
  cbn [bind]. destruct (resp_json resp1') as [body|]; [|reflexivity].
  cbn [bind]. destruct (latest_sha (first_commit body)) as [sha|]; [|reflexivity].
  cbn [bind]. now rewrite H2.
Qed.

End RemoteBranch.

(** X10: with [repoUrl] present, a failed normalisation throws one of two
    errors: the [Invalid GitHub URL format] error of the URL check, or
    an [Error] whose message starts with [Failed to fetch commit
    details: ] and goes on with the message of what went wrong in the
    remote branch; no [TypeError] or [SyntaxError] gets out as such. *)
Theorem remote_path_errors fetch now input u e :
  in_repoUrl input = Some u ->
  normalize fetch now input = Throw e ->
  e = Exn JsError (lit "Invalid GitHub URL format: " ++ u) \/
  exists cause,
    e = Exn JsError (lit "Failed to fetch commit details: " ++ message_of cause).
Proof.
  intros Hu H.
  destruct (normalize_repoUrl fetch now input Hu) as [(r & _ & _ & E)|[_ E]];
    rewrite E in H.
  - right. destruct (route_remote_throws _ _ H) as [cause ->]. now exists cause.
  - left. now injection H as <-.
Qed.

Lemma remote_path_errors_witness :
  exists cause,
    Exn JsError (lit "Failed to fetch commit details: fetch failed")
    = Exn JsError (lit "Failed to fetch commit details: " ++ message_of cause).
Proof.
  destruct (@remote_path_errors net_down [] (shapeA (url acme)) (url acme)
              (Exn JsError (lit "Failed to fetch commit details: fetch failed"))
              eq_refl eq_refl) as [H|H].
  - discriminate H.
  - exact H.
Defined.

(** X11: when both calls are answered with a success status, an array
    with at least one commit and a commit object, the remote branch
    returns the commit object reshaped: its sha, message, date,
    statistics and files, the login as author (the commit author's name
    when there is no login or an empty one), and the URL
    [https://github.com/<owner>/<repo>/commit/<sha>].  Of the list only
    the sha of the first commit is used. *)
Theorem remote_success fetch now r resp1 c rest resp2 d :
  fetch (api_request (commitsUrl r)) = Ok resp1 ->
  ok resp1 = true ->
  resp_json resp1 = Ok (CommitArray (c :: rest)) ->
  fetch (api_request (detailUrl r (gc_sha c))) = Ok resp2 ->
  ok resp2 = true ->
  resp_json resp2 = Ok (CommitObject d) ->
  routeStep fetch now (Some (Repo r))
  = Ok {| cd_sha := gh_sha d;
          cd_message := ci_message (gh_commit d);
          cd_author := match gh_author d with
                       | Some {| login := l |} =>
                           if truthy l then l else ca_name (ci_author (gh_commit d))
                       | None => ca_name (ci_author (gh_commit d))
                       end;
          cd_date := ca_date (ci_author (gh_commit d));
          cd_url := lit "https://github.com/" ++ owner r ++ lit "/" ++ repo r
                    ++ lit "/commit/" ++ gh_sha d;
          stats := gh_stats d;
          files := map reshape_file (gh_files d) |}.
Proof.
  intros E1 Hok1 Hj1 E2 Hok2 Hj2. cbn [routeStep]. unfold route_remote.
  rewrite E1. cbn [bind]. unfold check_ok. rewrite Hok1. cbn [negb bind].
  rewrite Hj1. cbn [bind first_commit latest_sha].
  rewrite E2. cbn [bind]. rewrite Hok2. cbn [negb bind].
  rewrite Hj2. cbn [bind shape_detail try_catch].
  do 2 f_equal. unfold author_of. now destruct (gh_author d) as [[l]|].
Qed.

Lemma remote_success_witness :
  exists cd,
    routeStep net_plain [] (Some (Repo acme)) = Ok cd /\
    cd_author cd = lit "ann" /\
    cd_url cd = lit "https://github.com/acme/widgets/commit/abc".
Proof.
  eexists. split.
  - apply (@remote_success net_plain [] acme
             {| resp_status := 200; resp_statusText := lit "OK";
                resp_json := Ok (CommitArray [some_commit]) |}
             some_commit []
             {| resp_status := 200; resp_statusText := lit "OK";
                resp_json := Ok (CommitObject plain_detail) |}
             plain_detail); reflexivity.
  - split; reflexivity.
Defined.

(** X12: the remote branch depends on the network only through requests
    with the two headers of the API and a URL that starts with
    [https://api.github.com/repos/<owner>/<repo>/commits]; it does not
    depend on the clock. *)
Theorem remote_requests_confined fetch fetch' now now' r :
  (forall q,
      startsWith (lit "https://api.github.com/repos/" ++ owner r ++ lit "/" ++ repo r
                  ++ lit "/commits") (req_url q) = true ->
      req_headers q = api_headers ->
      fetch' q = fetch q) ->
  routeStep fetch' now' (Some (Repo r)) = routeStep fetch now (Some (Repo r)).
Proof.
  intros H. cbn [routeStep]. apply route_remote_ext.
  - apply H; [apply commitsUrl_prefix|reflexivity].
  - intros sha. apply H; [apply detailUrl_prefix|reflexivity].
Qed.

Lemma remote_requests_confined_witness :
  routeStep
    (fun q => if startsWith (lit "https://api.github.com/") (req_url q)
              then net_plain q else net_down q)
    (lit "2024") (Some (Repo acme))
  = routeStep net_plain [] (Some (Repo acme)).
Proof.
  apply (@remote_requests_confined net_plain
           (fun q => if startsWith (lit "https://api.github.com/") (req_url q)
                     then net_plain q else net_down q)
           [] (lit "2024") acme).
  intros q Hq _.
  assert (E : startsWith (lit "https://api.github.com/") (req_url q) = true).
  { destruct (startsWith_split _ _ Hq) as [t ->].
    change (lit "https://api.github.com/repos/")
      with (lit "https://api.github.com/" ++ lit "repos/").
    rewrite <- !app_assoc. apply startsWith_self_app. }
  now rewrite E.
Defined.

(** ** The tools and the three-step variant of the remote path *)

Section Steps.

Import GitHubTool.

Lemma free_of_no_slash (s : jsstring) : free_of (lit "/") s -> ~ In ThreeSteps.SLASH s.
Proof.
  unfold free_of. induction s as [|c s IH]; intros H; [intros []|].
  cbn [forallb] in H. apply andb_true_iff in H as [Hc Hs].
  intros [->|Hin]; [discriminate Hc|now apply IH].
Qed.

Lemma free_of_weaken (s : jsstring) : free_of (lit "/?#") s -> free_of (lit "/") s.
Proof.
  unfold free_of. induction s as [|c s IH]; intros H; [reflexivity|].
  cbn [forallb] in *. apply andb_true_iff in H as [Hc Hs].
  rewrite (IH Hs), andb_true_r. cbn in *.
  destruct (N.eqb c 47); [discriminate|reflexivity].
Qed.

(** [split] gives back the piece in front of the first separator. *)
Lemma split_on_app sep l rest :
  ~ In sep l -> ThreeSteps.split_on sep (l ++ sep :: rest) = l :: ThreeSteps.split_on sep rest.
Proof.
  induction l as [|c l IH]; intros Hl; cbn [app ThreeSteps.split_on].
  - now rewrite N.eqb_refl.
  - destruct (N.eqb_spec c sep) as [->|_]; [exfalso; apply Hl; now left|].
    rewrite IH by (intros Hin; apply Hl; now right). reflexivity.
Qed.

Lemma split_on_none sep l : ~ In sep l -> ThreeSteps.split_on sep l = [l].
Proof.
  induction l as [|c l IH]; intros Hl; cbn [ThreeSteps.split_on]; [reflexivity|].
  destruct (N.eqb_spec c sep) as [->|_]; [exfalso; apply Hl; now left|].
  rewrite IH by (intros Hin; apply Hl; now right). reflexivity.
Qed.

(** Owner and repository come back out of the commit URL. *)
Lemma commit_url_parts o r sha :
  free_of (lit "/") o -> free_of (lit "/") r ->
  nth_error (ThreeSteps.split_on ThreeSteps.SLASH (commit_url o r sha)) 3 = Some o /\
  nth_error (ThreeSteps.split_on ThreeSteps.SLASH (commit_url o r sha)) 4 = Some r.
Proof.
  intros Ho Hr.
  assert (E : commit_url o r sha
              = lit "https:" ++ ThreeSteps.SLASH :: [] ++ ThreeSteps.SLASH :: lit "github.com" ++ ThreeSteps.SLASH ::
                o ++ ThreeSteps.SLASH :: r ++ ThreeSteps.SLASH :: lit "commit/" ++ sha).
  { unfold commit_url.
    change (lit "https://github.com/")
      with (lit "https:" ++ ThreeSteps.SLASH :: [] ++ ThreeSteps.SLASH :: lit "github.com" ++ [ThreeSteps.SLASH]).
    change (lit "/commit/") with (ThreeSteps.SLASH :: lit "commit/").
    change (lit "/") with [ThreeSteps.SLASH].
    rewrite <- !app_assoc. reflexivity. }
  rewrite E.
  rewrite (split_on_app ThreeSteps.SLASH (lit "https:")) by (vm_compute; intuition discriminate).
  rewrite (split_on_app ThreeSteps.SLASH []) by (intros []).
  rewrite (split_on_app ThreeSteps.SLASH (lit "github.com")) by (vm_compute; intuition discriminate).
  rewrite (split_on_app ThreeSteps.SLASH o) by now apply free_of_no_slash.
  rewrite (split_on_app ThreeSteps.SLASH r) by now apply free_of_no_slash.
  split; reflexivity.
Qed.

Lemma analyze_is_detail_tool (fetch : Network) o r sha s rest :
  nth_error (ThreeSteps.split_on ThreeSteps.SLASH (cs_url s)) 3 = o ->
  nth_error (ThreeSteps.split_on ThreeSteps.SLASH (cs_url s)) 4 = r ->
  cs_sha s = sha ->
  ThreeSteps.analyzeLatestCommit fetch (Some {| commits := s :: rest |})
  = getCommitDetailTool fetch {| dc_owner := ThreeSteps.interpolate o; dc_repo := ThreeSteps.interpolate r;
                                 dc_sha := sha |}.
Proof.
  intros <- <- <-. reflexivity.
Qed.

(** What the URL check lets through. *)
Lemma extract_sound u o r :
  extract_owner_repo patterns u = (o, r) ->
  truthy o = true ->
  free_of (lit "/") o /\ free_of (lit "/?#") r.
Proof.
  rewrite extract_first_pattern.
  destruct (exec repo_pattern u) as [m|] eqn:E.
  - destruct (exec_repo_sound _ E) as (w & o' & seg & -> & _ & Hoa & _ & Hsa).
    cbn [group nth]. intros [= <- <-] _. split; [exact Hoa|now apply strip_git_free].
  - intros [= <- <-]. discriminate.
Qed.

Lemma steps_parse_agree u :
  ThreeSteps.parseRepoUrl (Some u)
  = match parseRepoUrl (Some (shapeA u)) with
    | Ok (Repo r) => Ok r
    | Ok (Diff _) => Throw (invalid_url u)
    | Throw e => Throw e
    end.
Proof.
  unfold ThreeSteps.parseRepoUrl, parseRepoUrl, shapeA. cbn [in_repoUrl].
  destruct (extract_owner_repo patterns u) as [o r].
  now destruct (negb (truthy o) || negb (truthy r)).
Qed.

(** After the URL check, the two later steps succeed exactly when the
    merged step does, with the same result. *)
Lemma steps_vs_route (fetch : Network) r cd :
  free_of (lit "/") (owner r) -> free_of (lit "/") (repo r) ->
  (cs <- ThreeSteps.fetchRecentCommits fetch (Some r) ;; ThreeSteps.analyzeLatestCommit fetch (Some cs)) = Ok cd
  <-> route_remote fetch r = Ok cd.
Proof.
  intros Ho Hr. unfold ThreeSteps.fetchRecentCommits, route_remote.
  destruct (fetch (api_request (commitsUrl r))) as [resp1|e1];
    cbn [bind try_catch]; [|split; discriminate].
  destruct (check_ok resp1) as [resp1'|e1]; cbn [bind try_catch]; [|split; discriminate].
  destruct (resp_json resp1') as [[[|c l]|d]|e1];
    cbn [bind try_catch map_commits first_commit latest_sha map];
    try (split; discriminate).
  destruct (commit_url_parts (gc_sha c) Ho Hr) as [H3 H4].
  rewrite (@analyze_is_detail_tool fetch (Some (owner r)) (Some (repo r)) (gc_sha c)
             (summarize (owner r) (repo r) c) _ H3 H4 eq_refl).
  unfold getCommitDetailTool. cbn [dc_owner dc_repo dc_sha ThreeSteps.interpolate].
  change (detailUrl {| owner := owner r; repo := repo r; url := [] |} (gc_sha c))
    with (detailUrl r (gc_sha c)).
  destruct (fetch (api_request (detailUrl r (gc_sha c)))) as [resp2|e2];
    cbn [bind try_catch]; [|split; discriminate].
  destruct (check_ok resp2) as [resp2'|e2]; cbn [bind try_catch]; [|split; discriminate].
  destruct (resp_json resp2') as [[l2|d2]|e2]; cbn [bind try_catch shape_detail];
    try (split; discriminate).
  reflexivity.
Qed.

End Steps.

(** X13: the merged [routeStep] returns what the three steps
    [parseRepoUrl], [fetchRecentCommits], [analyzeLatestCommit] returned:
    on every network and for every URL, one succeeds with a CommitDetail
    exactly when the other succeeds with the same CommitDetail. *)
Theorem three_steps_same_result fetch now u cd :
  ThreeSteps.remote_steps fetch u = Ok cd <-> normalize fetch now (shapeA u) = Ok cd.
Proof.
  unfold ThreeSteps.remote_steps, normalize. rewrite steps_parse_agree.
  unfold parseRepoUrl, shapeA. cbn [in_repoUrl].
  destruct (extract_owner_repo patterns u) as [o r] eqn:Ex.
  destruct (truthy o) eqn:To; cbn [negb orb bind]; [|split; discriminate].
  destruct (truthy r) eqn:Tr; cbn [negb bind]; [|split; discriminate].
  cbn [routeStep].
  destruct (extract_sound _ Ex To) as [Ho Hr].
  apply steps_vs_route; cbn [owner repo]; [exact Ho|now apply free_of_weaken].
Qed.

Lemma three_steps_same_result_witness :
  exists cd, ThreeSteps.remote_steps net_plain (url acme) = Ok cd /\
             normalize net_plain [] (shapeA (url acme)) = Ok cd.
Proof.
  eexists. split; [|reflexivity].
  apply (proj2 (three_steps_same_result net_plain [] (url acme) _)). reflexivity.
Defined.

(** X14: in the three-step variant a commit list that comes back empty
    ends the run with the error [No commits found]. *)
Theorem three_steps_empty_list fetch u r resp :
  ThreeSteps.parseRepoUrl (Some u) = Ok r ->
  fetch (api_request (commitsUrl r)) = Ok resp ->
  ok resp = true ->
  resp_json resp = Ok (CommitArray []) ->
  ThreeSteps.remote_steps fetch u = Throw (Exn JsError (lit "No commits found")).
Proof.
  intros Hp E Hok Hj. unfold ThreeSteps.remote_steps. rewrite Hp. cbn [bind].
  unfold ThreeSteps.fetchRecentCommits. rewrite E. cbn [bind].
  unfold check_ok. rewrite Hok. cbn [negb bind]. rewrite Hj. reflexivity.
Qed.

Lemma three_steps_empty_list_witness :
  ThreeSteps.remote_steps net_no_commits (url acme)
  = Throw (Exn JsError (lit "No commits found")).
Proof.
  apply (@three_steps_empty_list net_no_commits (url acme) acme
           {| resp_status := 200; resp_statusText := lit "OK";
              resp_json := Ok (CommitArray []) |}); reflexivity.
Defined.

(** X15: [analyzeLatestCommit] takes owner and repository back out of
    the URL of the first commit: on the summaries that the commit-list
    code builds for a slash-free owner and repository it does what
    [getCommitDetailTool] does for that owner, that repository and the
    sha of the first commit. *)
Theorem analyze_recovers_repository fetch o r c rest :
  free_of (lit "/") o -> free_of (lit "/") r ->
  ThreeSteps.analyzeLatestCommit fetch
    (Some {| GitHubTool.commits := map (GitHubTool.summarize o r) (c :: rest) |})
  = GitHubTool.getCommitDetailTool fetch
      {| GitHubTool.dc_owner := o; GitHubTool.dc_repo := r;
         GitHubTool.dc_sha := gc_sha c |}.
Proof.
  intros Ho Hr. destruct (commit_url_parts (gc_sha c) Ho Hr) as [H3 H4].
  cbn [map].
  exact (@analyze_is_detail_tool fetch (Some o) (Some r) (gc_sha c)
           (GitHubTool.summarize o r c) _ H3 H4 eq_refl).
Qed.

Lemma analyze_recovers_repository_witness :
  ThreeSteps.analyzeLatestCommit net_plain
    (Some {| GitHubTool.commits :=
               map (GitHubTool.summarize (lit "acme") (lit "widgets")) [some_commit] |})
  = GitHubTool.getCommitDetailTool net_plain
      {| GitHubTool.dc_owner := lit "acme"; GitHubTool.dc_repo := lit "widgets";
         GitHubTool.dc_sha := lit "abc" |}.
Proof.
  apply (@analyze_recovers_repository net_plain (lit "acme") (lit "widgets")
           some_commit []); reflexivity.
Defined.

(** X16: when the URL of the first commit holds no slash, the array
    elements 3 and 4 are [undefined] and [analyzeLatestCommit] asks for
    the repository [undefined/undefined]. *)
Theorem analyze_without_slashes fetch s rest :
  free_of (lit "/") (GitHubTool.cs_url s) ->
  ThreeSteps.analyzeLatestCommit fetch (Some {| GitHubTool.commits := s :: rest |})
  = GitHubTool.getCommitDetailTool fetch
      {| GitHubTool.dc_owner := lit "undefined"; GitHubTool.dc_repo := lit "undefined";
         GitHubTool.dc_sha := GitHubTool.cs_sha s |}.
Proof.
  intros Hs.
  apply (@analyze_is_detail_tool fetch None None); try reflexivity;
    now rewrite split_on_none by now apply free_of_no_slash.
Qed.

Lemma analyze_without_slashes_witness :
  ThreeSteps.analyzeLatestCommit net_404
    (Some {| GitHubTool.commits :=
               [{| GitHubTool.cs_sha := lit "abc"; GitHubTool.cs_message := [];
                   GitHubTool.cs_author := []; GitHubTool.cs_date := [];
                   GitHubTool.cs_url := lit "nowhere" |}] |})
  = Throw (Exn JsError (lit "Failed to fetch commit detail: GitHub API error: 404 Not Found")).
Proof.
  rewrite (@analyze_without_slashes net_404
             {| GitHubTool.cs_sha := lit "abc"; GitHubTool.cs_message := [];
                GitHubTool.cs_author := []; GitHubTool.cs_date := [];
                GitHubTool.cs_url := lit "nowhere" |} [] eq_refl).
  reflexivity.
Defined.

(** X17: whatever goes wrong inside the two network tools comes out as
    an [Error] whose message starts with the tool's stage prefix. *)
Theorem tool_errors_wrapped fetch :
  (forall c e, GitHubTool.getCommitsTool fetch c = Throw e ->
     exists cause, e = Exn JsError (lit "Failed to fetch commits: " ++ message_of cause)) /\
  (forall c e, GitHubTool.getCommitDetailTool fetch c = Throw e ->
     exists cause, e = Exn JsError (lit "Failed to fetch commit detail: " ++ message_of cause)).
Proof.
  split; intros c e; unfold GitHubTool.getCommitsTool, GitHubTool.getCommitDetailTool, try_catch;
    match goal with |- context [match ?m with Ok _ => _ | Throw _ => _ end] =>
      destruct m as [x|cause] end;
    try discriminate; intros [= <-]; now exists cause.
Qed.

Lemma tool_errors_wrapped_witness :
  exists cause,
    Exn JsError (lit "Failed to fetch commits: fetch failed")
    = Exn JsError (lit "Failed to fetch commits: " ++ message_of cause).
Proof.
  apply (proj1 (tool_errors_wrapped net_down)
           {| GitHubTool.cc_owner := lit "acme"; GitHubTool.cc_repo := lit "widgets";
              GitHubTool.cc_per_page := None |}).
  reflexivity.
Defined.

(** ** The review step and the whole workflow *)

Section ReviewStep.

Lemma consume_all cs out text :
  consume cs (out, text) = (out ++ cs, text ++ List.concat cs).
Proof.
  revert out text; induction cs as [|c cs IH]; intros out text.
  - cbn. now rewrite !app_nil_r.
  - change (consume (c :: cs) (out, text))
      with (consume cs (consume_chunk (out, text) c)).
    unfold consume_chunk. cbn [fst snd]. rewrite IH. cbn [List.concat].
    now rewrite <- !app_assoc.
Qed.

(** The outcomes of the review step on a commit detail. *)
Lemma generateCodeReview_cases mastra detail :
  (exists e, getAgent mastra (lit "codeReviewAgent") <> Ok None /\
             (forall agent, getAgent mastra (lit "codeReviewAgent") <> Ok (Some agent)) /\
             generateCodeReview mastra (Some detail) = ([], Throw e)) \/
  (getAgent mastra (lit "codeReviewAgent") = Ok None /\
   generateCodeReview mastra (Some detail)
   = ([], Throw (Exn JsError (lit "Code Review agent not found")))) \/
  (exists agent,
     getAgent mastra (lit "codeReviewAgent") = Ok (Some agent) /\
     ((exists e, agent [{| role := lit "user"; content := prompt_of detail |}] = Throw e /\
                 generateCodeReview mastra (Some detail) = ([], Throw e)) \/
      (exists s, agent [{| role := lit "user"; content := prompt_of detail |}] = Ok s /\
                 generateCodeReview mastra (Some detail)
                 = (chunks s,
                    match failure s with
                    | Some e => Throw e
                    | None => Ok {| review := List.concat (chunks s) |}
                    end)))).
Proof.
  unfold generateCodeReview.
  destruct (getAgent mastra (lit "codeReviewAgent")) as [[agent|]|e0];
    [right; right|right; left; now split|left; exists e0; repeat split; discriminate].
  exists agent. split; [reflexivity|].
  destruct (agent _) as [s|e].
  - right. exists s. split; [reflexivity|]. rewrite consume_all. cbn [app].
    now destruct (failure s).
  - left. exists e. now split.
Qed.

End ReviewStep.

(** X18: the review that a run of the workflow returns is the text it
    wrote to the standard output, fragment by fragment in the order of
    the stream: normalisation succeeded, the agent [codeReviewAgent]
    was sent the one user message that holds the prompt of the commit
    detail, and its stream ended without error. *)
Theorem review_is_what_was_written mastra fetch now input out rv :
  codeReviewWorkflow mastra fetch now input = (out, Ok rv) ->
  review rv = written out /\
  exists detail agent s,
    normalize fetch now input = Ok detail /\
    getAgent mastra (lit "codeReviewAgent") = Ok (Some agent) /\
    agent [{| role := lit "user"; content := prompt_of detail |}] = Ok s /\
    failure s = None /\ out = chunks s.
Proof.
  unfold codeReviewWorkflow.
  destruct (normalize fetch now input) as [detail|e0]; [|discriminate].
  destruct (generateCodeReview_cases mastra detail)
    as [(e & _ & _ & E)|[[_ E]|(agent & Ha & [(e & _ & E)|(s & Hs & E)])]];
    rewrite E; try discriminate.
  destruct (failure s) as [e|] eqn:Hf; [discriminate|].
  intros [= <- <-]. split; [reflexivity|].
  now exists detail, agent, s.
Qed.

Lemma review_is_what_was_written_witness :
  codeReviewWorkflow (Some (registry_of two_chunks)) net_404 [] (shapeB sample_diff)
  = ([lit "Looks "; lit "good."], Ok {| review := lit "Looks good." |}) /\
  review {| review := lit "Looks good." |} = written [lit "Looks "; lit "good."].
Proof.
  split; [reflexivity|].
  apply (@review_is_what_was_written (Some (registry_of two_chunks)) net_404 []
           (shapeB sample_diff)).
  reflexivity.
Defined.

(** X19: a run that fails has written nothing, unless the stream of the
    agent itself broke off: then the fragments received before were
    written, the error is the one of the stream, and no review is
    returned. *)
Theorem failed_run_output mastra fetch now input out e :
  codeReviewWorkflow mastra fetch now input = (out, Throw e) ->
  out = [] \/
  exists detail agent s,
    normalize fetch now input = Ok detail /\
    getAgent mastra (lit "codeReviewAgent") = Ok (Some agent) /\
    agent [{| role := lit "user"; content := prompt_of detail |}] = Ok s /\
    failure s = Some e /\ out = chunks s.
Proof.
  unfold codeReviewWorkflow.
  destruct (normalize fetch now input) as [detail|e0]; [|intros [= <- _]; now left].
  destruct (generateCodeReview_cases mastra detail)
    as [(e1 & _ & _ & E)|[[_ E]|(agent & Ha & [(e1 & _ & E)|(s & Hs & E)])]]; rewrite E.
  - intros [= <- _]. now left.
  - intros [= <- _]. now left.
  - intros [= <- _]. now left.
  - destruct (failure s) as [e1|] eqn:Hf; [|discriminate].
    intros [= <- <-]. right. now exists detail, agent, s.
Qed.

Lemma failed_run_output_witness :
  codeReviewWorkflow (Some (registry_of broken_stream)) net_404 [] (shapeB sample_diff)
  = ([lit "Looks "], Throw (Exn JsError (lit "stream closed"))) /\
  codeReviewWorkflow (Some (registry_of two_chunks)) net_404 []
    (shapeA (lit "not-a-github-url"))
  = ([], Throw (invalid_url (lit "not-a-github-url"))).
Proof.
  split; [reflexivity|].
  destruct (@failed_run_output (Some (registry_of two_chunks)) net_404 []
              (shapeA (lit "not-a-github-url")) []
              (invalid_url (lit "not-a-github-url")) eq_refl) as [_|_]; reflexivity.
Defined.

(** ** More on the diff branch *)

Section Reparse.

Lemma split_nl_line l : ~ In LF l -> split_nl l = [l].
Proof.
  induction l as [|c l IH]; intros Hl; cbn [split_nl]; [reflexivity|].
  destruct (N.eqb_spec c LF) as [->|_]; [exfalso; apply Hl; now left|].
  rewrite IH by (intros Hin; apply Hl; now right). reflexivity.
Qed.

(** The lines that [split] gives hold no newline. *)
Lemma split_nl_no_LF t : Forall (fun l => ~ In LF l) (split_nl t).
Proof.
  induction t as [|c t IH]; cbn [split_nl].
  - constructor; [intros []|constructor].
  - destruct (N.eqb_spec c LF) as [->|Hc].
    + constructor; [intros []|exact IH].
    + destruct (split_nl t) as [|l ls]; [repeat constructor; intros [E|[]]; congruence|].
      inversion IH as [|? ? Hl Hls]; subst. constructor; [|exact Hls].
      intros [E|Hin]; [congruence|now apply Hl].
Qed.

Lemma split_with_newlines ls :
  Forall (fun l => ~ In LF l) ls -> split_nl (with_newlines ls) = ls ++ [[]].
Proof.
  induction 1 as [|l ls Hl _ IH]; [reflexivity|].
  rewrite with_newlines_cons. change (l ++ [LF] ++ with_newlines ls)
    with (l ++ LF :: with_newlines ls).
  now rewrite split_nl_app, (split_nl_line l Hl), IH.
Qed.

Lemma body_lines_Forall (P : jsstring -> Prop) ls :
  Forall P ls -> Forall P (body_lines ls).
Proof.
  induction 1 as [|l ls Hl _ IH]; cbn [body_lines]; [constructor|].
  destruct (is_marker l); [constructor|now constructor].
Qed.

Lemma sections_Forall (P : jsstring -> Prop) ls sec :
  Forall P ls -> In sec (sections ls) -> P (fst sec) /\ Forall P (snd sec).
Proof.
  induction 1 as [|l ls Hl Hls IH]; cbn [sections]; [contradiction|].
  destruct (is_marker l); [|exact IH].
  intros [<-|Hin]; [|now apply IH].
  split; [exact Hl|now apply body_lines_Forall].
Qed.

Lemma sections_body_no_marker ls sec :
  In sec (sections ls) -> Forall (fun l => is_marker l = false) (snd sec).
Proof.
  induction ls as [|l ls IH]; cbn [sections]; [contradiction|].
  destruct (is_marker l); [|exact IH].
  intros [<-|Hin]; [apply body_lines_no_marker|now apply IH].
Qed.

Lemma body_lines_all body :
  Forall (fun l => is_marker l = false) body -> body_lines body = body.
Proof.
  induction 1 as [|l body Hl _ IH]; [reflexivity|].
  cbn [body_lines]. now rewrite Hl, IH.
Qed.

Lemma count_app p xs ys : count p (xs ++ ys) = (count p xs + count p ys)%Z.
Proof. unfold count. rewrite filter_app, length_app. lia. Qed.

Lemma with_newlines_app xs ys :
  with_newlines (xs ++ ys) = with_newlines xs ++ with_newlines ys.
Proof. unfold with_newlines. now rewrite map_app, concat_app. Qed.

(** Parsing the text of one section again. *)
Lemma reparse_section m body :
  is_marker m = true ->
  Forall (fun l => is_marker l = false) body ->
  Forall (fun l => ~ In LF l) (m :: body) ->
  parse_lines (split_nl (with_newlines (m :: body)))
  = map section_file (filter emitted [(m, body ++ [[]])]).
Proof.
  intros Hm Hbody Hlf.
  assert (Hb : Forall (fun l => is_marker l = false) (body ++ [[]])).
  { apply Forall_app. split; [exact Hbody|repeat constructor]. }
  rewrite (split_with_newlines Hlf), parse_lines_sections.
  change ((m :: body) ++ [[]]) with (m :: body ++ [[]]).
  cbn [sections]. rewrite Hm, (body_lines_all Hb).
  rewrite <- (app_nil_r (body ++ [[]])) at 2. now rewrite (sections_skip _ Hb).
Qed.

Lemma sum_Z_changes fs :
  Forall (fun f => changes f = (additions f + deletions f)%Z) fs ->
  sum_Z (map changes fs) = (sum_Z (map additions fs) + sum_Z (map deletions fs))%Z.
Proof.
  induction 1 as [|f fs Hf _ IH]; [reflexivity|].
  cbn [map]. unfold sum_Z in *. cbn [fold_right]. lia.
Qed.

Lemma sections_count ls :
  (List.length (sections ls) = List.length (filter is_marker ls))%nat.
Proof.
  induction ls as [|l ls IH]; [reflexivity|].
  cbn [sections filter]. destruct (is_marker l); cbn [List.length]; now rewrite IH.
Qed.

End Reparse.

(** X20: on the diff path [stats.total] is the sum of the [changes] of
    the files, and there are no more files than lines that start with
    [diff --git]. *)
Theorem total_is_sum_of_changes fetch now input text cd :
  in_repoUrl input = None ->
  in_diffContent input = Some text ->
  normalize fetch now input = Ok cd ->
  total (stats cd) = sum_Z (map changes (files cd)) /\
  (List.length (files cd) <= List.length (filter is_marker (split_nl text)))%nat.
Proof.
  intros Hu Ht H.
  destruct (normalize_diff fetch now input Hu Ht H) as (Hf & Ha & Hd & Htot).
  split.
  - rewrite Htot, Ha, Hd. symmetry. apply sum_Z_changes.
    rewrite Hf, parse_lines_sections. apply Forall_forall. intros f Hin.
    apply in_map_iff in Hin as (sec & <- & _). reflexivity.
  - rewrite Hf, parse_lines_sections, length_map, <- sections_count.
    apply filter_length_le.
Qed.

Lemma total_is_sum_of_changes_witness :
  exists cd,
    normalize net_404 [] (shapeB untidy_diff) = Ok cd /\
    total (stats cd) = sum_Z (map changes (files cd)) /\
    (List.length (files cd) <= 2)%nat.
Proof.
  eexists. split; [reflexivity|].
  apply (@total_is_sum_of_changes net_404 [] (shapeB untidy_diff) untidy_diff _
           eq_refl eq_refl eq_refl).
Defined.

(** X21: the patch of a FileChange parses back to that FileChange: given
    as [diffContent], it yields one file with the same name, counts and
    status, whose patch is the original one with one more newline. *)
Theorem patch_parses_back fetch now input text cd f :
  in_repoUrl input = None ->
  in_diffContent input = Some text ->
  normalize fetch now input = Ok cd ->
  In f (files cd) ->
  exists p cd',
    patch f = Some p /\
    normalize fetch now (shapeB p) = Ok cd' /\
    files cd' = [{| filename := filename f;
                    additions := additions f;
                    deletions := deletions f;
                    changes := changes f;
                    status := status f;
                    patch := Some (p ++ [LF]) |}].
Proof.
  intros Hu Ht H Hin.
  destruct (normalize_diff fetch now input Hu Ht H) as (Hf & _).
  rewrite Hf, parse_lines_sections in Hin.
  apply in_map_iff in Hin as ([m body] & <- & Hsec).
  apply filter_In in Hsec as [Hsec He].
  pose proof (sections_marker _ _ Hsec) as Hm.
  pose proof (sections_body_no_marker _ _ Hsec) as Hbody.
  destruct (@sections_Forall (fun l => ~ In LF l) (split_nl text) (m, body)
              (split_nl_no_LF text) Hsec) as [Hlm Hlb].
  cbn [fst snd] in Hm, Hbody, Hlm, Hlb.
  destruct (normalize_diff_total fetch now (shapeB (with_newlines (m :: body)))
              eq_refl eq_refl) as [cd' H'].
  exists (with_newlines (m :: body)), cd'.
  split; [reflexivity|]. split; [exact H'|].
  destruct (normalize_diff fetch now (shapeB (with_newlines (m :: body)))
              eq_refl eq_refl H') as (-> & _).
  rewrite (@reparse_section m body Hm Hbody
             (@Forall_cons _ (fun l => ~ In LF l) m body Hlm Hlb)).
  cbn [filter]. unfold emitted in *. cbn [fst] in *. rewrite He. cbn [map].
  unfold section_file. cbn [fst snd filename additions deletions changes status patch].
  rewrite !count_app.
  change (count is_addition [[]]) with 0%Z. change (count is_deletion [[]]) with 0%Z.
  rewrite !Z.add_0_r.
  change (m :: body ++ [[]]) with ((m :: body) ++ [[]]).
  rewrite with_newlines_app. reflexivity.
Qed.

Lemma patch_parses_back_witness :
  exists p cd',
    Some (sample_diff ++ [LF]) = Some p /\
    normalize net_404 [] (shapeB p) = Ok cd' /\
    map filename (files cd') = [lit "src/a.js"].
Proof.
  destruct (@patch_parses_back net_404 [] (shapeB sample_diff) sample_diff _
              {| filename := lit "src/a.js"; additions := 1; deletions := 1; changes := 2;
                 status := lit "modified"; patch := Some (sample_diff ++ [LF]) |}
              eq_refl eq_refl eq_refl (or_introl eq_refl))
    as (p & cd' & Hp & H' & Hf).
  exists p, cd'. split; [exact Hp|]. split; [exact H'|].
  rewrite Hf. reflexivity.
Defined.

(** The counting tests on lines that start with two and with three signs:
    only three signs make a file header line. *)
Lemma counting_tests_on_repeated_signs :
  is_addition (lit "++i;") = true /\ is_addition (lit "+++ b/src/a.js") = false /\
  is_deletion (lit "--i;") = true /\ is_deletion (lit "--- a/src/a.js") = false /\
  nth_error (split_nl sample_diff) 2 = Some (lit "+++ b/src/a.js").
Proof. repeat split. Qed.
